(** * GlowPath: scoring, classification, result assembly and alternatives ranking

    A shallow embedding of the TypeScript sources:
    - [lib.ts] (two versions: one talking to the upstream services directly,
      one going through the backend, both validating the classifier answer
      with a zod schema),
    - the backend-proxy version of [lib.ts] that also delegates the
      classification to the backend,
    - the two versions of [App.tsx] ([assess] and [findAlternatives]).

    Numbers.  A JavaScript [number] is an IEEE-754 binary64 value.  A finite
    one is a rational, so the type [number] below is [Q]; comparisons,
    [Math.max], [Math.min] and [Math.round] are exact on it.  The arithmetic
    operators [+], [-] and [*] round their exact result to the nearest
    binary64 value (ties to even): that rounding is [binary64] below, and
    the literals [0.7] and [0.3] denote [binary64 (7/10)] and
    [binary64 (3/10)].  [NaN] and the infinities only occur at the input
    boundary ([jsnum]); both entry points reject them with
    [Number.isFinite] before any scoring function runs.  Operands of the
    arithmetic are clamped to [0,100] first, so no operation overflows. *)

From Stdlib Require Import ZArith QArith Qround Qpower Qminmax Lia Lqa.
From Stdlib Require Import Bool List String Ascii.
From Stdlib Require Import Sorting.Sorted Sorting.Permutation.
From Stdlib Require Import Floats.SpecFloat.
Import ListNotations.

#[local] Set Warnings "-register-all".

Local Open Scope Q_scope.

(* ================================================================== *)
(** ** JavaScript numbers *)

Module JsNumber.

(** A finite JavaScript number, by its exact value. *)
Definition number : Type := Q.

(** Any JavaScript number, as met at the input boundary. *)
Inductive jsnum : Type :=
| Finite (q : number)
| NaN
| PosInf
| NegInf.

Definition isFinite (x : jsnum) : bool :=
  match x with Finite _ => true | _ => false end.

(** [a < b] on finite numbers. *)
Definition ltb (a b : number) : bool := negb (Qle_bool b a).

(** [a >= b] on finite numbers. *)
Definition geb (a b : number) : bool := Qle_bool b a.

(** floor (log2 a), for [0 < a]. *)
Definition ilog2 (a : Q) : Z :=
  let k := (Z.log2 (Qnum a) - Z.log2 (Zpos (Qden a)))%Z in
  if Qle_bool (2 ^ k) a then k else (k - 1)%Z.

(** Nearest integer, a tie going to the even neighbour. *)
Definition round_half_even (x : Q) : Z :=
  let f := Qfloor x in
  match Qcompare (x - inject_Z f) (1 # 2) with
  | Lt => f
  | Gt => (f + 1)%Z
  | Eq => if Z.even f then f else (f + 1)%Z
  end.

(** Exponent of the unit in the last place of the binade of [a]:
    53 significant bits, least exponent -1074 (subnormals). *)
Definition expo (a : Q) : Z := Z.max (ilog2 a - 52) (-1074).

Definition round_pos (a : Q) : Q :=
  let e := expo a in inject_Z (round_half_even (a / 2 ^ e)) * 2 ^ e.

(** Round-to-nearest-even into binary64 (overflow apart). *)
Definition binary64 (q : Q) : number :=
  match Qcompare q 0 with
  | Eq => 0
  | Gt => round_pos q
  | Lt => - round_pos (- q)
  end.

(** A positive [r] is a binary64 value when it is an integer multiple
    of the unit in the last place of its binade. *)
Definition representable (r : Q) : Prop :=
  exists M : Z, r == inject_Z M * 2 ^ expo r.

(** The operators [+], [-], [*] of the language. *)
Definition add (a b : number) : number := binary64 (a + b).
Definition sub (a b : number) : number := binary64 (a - b).
Definition mul (a b : number) : number := binary64 (a * b).

(** The literals [0.7], [0.3] and [0.55]. *)
Definition lit_0_7 : number := binary64 (7 # 10).
Definition lit_0_3 : number := binary64 (3 # 10).
Definition lit_0_55 : number := binary64 (55 # 100).

Definition Math_max (a b : number) : number := if Qle_bool a b then b else a.
Definition Math_min (a b : number) : number := if Qle_bool a b then a else b.

(** [Math.round]: the nearest integer, a tie going up. *)
Definition Math_round (x : number) : number := inject_Z (Qfloor (x + (1 # 2))).

(** Round-half-up of an exact real value, the rounding rule the
    specification names. *)
Definition round_half_up (x : Q) : Z := Qfloor (x + (1 # 2)).

End JsNumber.
Export JsNumber.

Declare Scope js_scope.
Delimit Scope js_scope with js.
Infix "+" := JsNumber.add : js_scope.
Infix "-" := JsNumber.sub : js_scope.
Infix "*" := JsNumber.mul : js_scope.

(* ================================================================== *)
(** ** The binary64 operations of the Standard Library

    [SpecFloat] is the executable IEEE-754 specification behind Rocq's
    primitive floats.  [Binary64] evaluates the two blends with it, bit
    for bit; it serves to check [JsNumber.binary64] against an independent
    definition. *)

Module Binary64.

Definition prec : Z := 53.
Definition emax : Z := 1024.

Definition of_Z (z : Z) : spec_float := binary_normalize prec emax z 0 false.
Definition fmul : spec_float -> spec_float -> spec_float := SFmul prec emax.
Definition fadd : spec_float -> spec_float -> spec_float := SFadd prec emax.
Definition fsub : spec_float -> spec_float -> spec_float := SFsub prec emax.
Definition fdiv : spec_float -> spec_float -> spec_float := SFdiv prec emax.

(** [0.7] and [0.3]: a correctly rounded quotient of two exact integers
    is the binary64 value nearest to the decimal literal. *)
Definition f0_7 : spec_float := fdiv (of_Z 7) (of_Z 10).
Definition f0_3 : spec_float := fdiv (of_Z 3) (of_Z 10).

(** Exact value of a finite float. *)
Definition to_Q (f : spec_float) : Q :=
  match f with
  | S754_finite s m e =>
      let v := inject_Z (Zpos m) * 2 ^ e in if s then - v else v
  | _ => 0
  end.

(** The blends on integer operands already inside [0,100]. *)
Definition vibe_blend (csi light : Z) : spec_float :=
  fadd (fmul f0_7 (fsub (of_Z 100) (of_Z csi))) (fmul f0_3 (of_Z light)).

Definition warmth_blend (csi light : Z) : spec_float :=
  fadd (fmul f0_7 (of_Z light)) (fmul f0_3 (fsub (of_Z 100) (of_Z csi))).

End Binary64.

(* ================================================================== *)
(** ** Data model ([lib.ts], type declarations) *)

Inductive RiskLevel : Type := SAFE | CAUTION | UNSAFE.

Inductive Classification : Type :=
| Cls_SAFE | Cls_UNSAFE | SOCIAL_BALANCED | INFRA_MISMATCH | UNCERTAIN.

Record LatLng : Type := { lat : number; lng : number }.

Record GlowPathResult : Type := {
  vibe_score : number;
  risk_level : RiskLevel;
  classification : Classification;
  social_warmth : number;
  lighting_score : number;
  crime_baseline : number;
  confidence : number;
  safe_haven_nearby : bool;
  rationale : string
}.

(** The object [geminiClassify] promises, and [params.modelOut]. *)
Record ModelOut : Type := {
  mo_risk_level : RiskLevel;
  mo_classification : Classification;
  mo_confidence : number;
  mo_rationale : string
}.

(** The argument object of [assembleFinalResult]. *)
Record AssembleParams : Type := {
  p_vibe_score : number;
  p_lighting_score : number;
  p_crime_baseline : number;
  p_social_warmth : number;
  p_modelOut : ModelOut
}.

(** [PlaceCandidate], with the two fields the time-aware version adds.
    [open_at_time] is [true], [false] or absent/[null] ([None]). *)
Record PlaceCandidate : Type := {
  pc_open_at_time : option bool;
  pc_hours_known : option bool;
  pc_name : string;
  pc_address : option string;
  pc_location : LatLng;
  pc_placeId : option string;
  pc_vibe_score : option number;
  pc_risk_level : option RiskLevel
}.

(** The ordering UNSAFE < CAUTION < SAFE of the risk bands. *)
Definition risk_rank (r : RiskLevel) : Z :=
  match r with UNSAFE => 0 | CAUTION => 1 | SAFE => 2 end.

(* ================================================================== *)
(** ** Deterministic scoring ([lib.ts], identical in every version) *)

Definition lightingScoreFromRadiance (r : number) : number :=
  let rad := Math_max 0 r in
  if ltb rad (1 # 2) then 15
  else if ltb rad 2 then 35
  else if ltb rad 10 then 65
  else 85.

Definition vibeScore (crimeCsi lightingScore : number) : number :=
  let csi := Math_max 0 (Math_min 100 crimeCsi) in
  let light := Math_max 0 (Math_min 100 lightingScore) in
  Math_round (lit_0_7 * (100 - csi) + lit_0_3 * light)%js.

Definition socialWarmthProxy (crimeCsi lightingScore : number) : number :=
  let csi := Math_max 0 (Math_min 100 crimeCsi) in
  let light := Math_max 0 (Math_min 100 lightingScore) in
  Math_round (lit_0_7 * light + lit_0_3 * (100 - csi))%js.

Definition riskLevelFromVibe (v : number) : RiskLevel :=
  if geb v 65 then SAFE
  else if geb v 40 then CAUTION
  else UNSAFE.

(** The blends as the specification writes them: exact real arithmetic,
    then round-half-up. *)
Definition clamp_0_100 (x : Q) : Q := Qmax 0 (Qmin 100 x).

Definition vibe_exact (csi lighting : Q) : Z :=
  round_half_up ((7 # 10) * (100 - clamp_0_100 csi) + (3 # 10) * clamp_0_100 lighting).

Definition warmth_exact (csi lighting : Q) : Z :=
  round_half_up ((7 # 10) * clamp_0_100 lighting + (3 # 10) * (100 - clamp_0_100 csi)).

(** An exact value whose distance to the nearest tie of [round_half_up]
    (a number of the form n + 1/2) is at least 10^-9. *)
Definition clear_of_tie (x : Q) : Prop :=
  inject_Z (round_half_up x) + (1 # 1000000000) <= x + (1 # 2) /\
  x + (1 # 2) <= inject_Z (round_half_up x) + 1 - (1 # 1000000000).

(* ================================================================== *)
(** ** Result assembly ([lib.ts], identical in every version) *)

Definition assembleFinalResult (params : AssembleParams) : GlowPathResult :=
  {| vibe_score := p_vibe_score params;
     risk_level := mo_risk_level (p_modelOut params);
     classification := mo_classification (p_modelOut params);
     social_warmth := p_social_warmth params;
     lighting_score := p_lighting_score params;
     crime_baseline := p_crime_baseline params;
     confidence := mo_confidence (p_modelOut params);
     safe_haven_nearby := false;
     rationale := mo_rationale (p_modelOut params) |}.

(* ================================================================== *)
(** ** Failures and results *)

(** What a call throws. *)
Inductive exn : Type :=
| Message (text : string)
    (* [new Error(text)] with a fixed text *)
| RequestFailed (endpoint : string) (status : Z) (detail : string)
    (* [new Error(`... failed (${status}) ...`)] after a response that is not ok *)
| ZodError
    (* thrown by [outputSchema.parse]: the schema validation failure *)
| SyntaxError
    (* thrown by [JSON.parse] and [res.json()] on text that is not JSON *)
| TypeError.
    (* thrown by a property read on [null] *)

Inductive result (A : Type) : Type :=
| Ok (a : A)
| Throw (e : exn).

Arguments Ok {A} a.
Arguments Throw {A} e.

Definition bind {A B : Type} (r : result A) (k : A -> result B) : result B :=
  match r with
  | Ok a => k a
  | Throw e => Throw e
  end.

Notation "x <- r ;; k" := (bind r (fun x => k))
  (at level 61, r at next level, right associativity).

(* ================================================================== *)
(** ** JSON values and the answers of the services *)

(** A value produced by [JSON.parse] or [res.json()].  An object is the
    list of its own properties, every key once; the characters of a string
    stand for its UTF-16 code units, which [length] and [slice] count. *)
Inductive json : Type :=
| JNull
| JBool (b : bool)
| JNum (n : jsnum)
| JStr (s : string)
| JArr (items : list json)
| JObj (fields : list (string * json)).

Fixpoint assoc {A : Type} (k : string) (fields : list (string * A)) : option A :=
  match fields with
  | [] => None
  | (k', v) :: rest => if String.eqb k k' then Some v else assoc k rest
  end.

(** The property read [v.k] for the keys used here; [None] is
    [undefined].  ([null.k] throws and is handled by the caller.) *)
Definition prop (v : json) (k : string) : option json :=
  match v with
  | JObj fields => assoc k fields
  | _ => None
  end.

(** An HTTP response as the code reads it: [res.ok], [res.status],
    [await res.text()] and [await res.json()] ([None] when the body is not
    JSON). *)
Record HttpResponse : Type := {
  res_ok : bool;
  res_status : Z;
  res_text : string;
  res_json : option json
}.

(** The answer to the crime query: [res.ok], [res.status] and the value of
    [Number(data?.csi)].  The record describes answers whose body is JSON;
    on an ok answer with another body [await res.json()] throws in both
    versions, an outcome the record does not hold. *)
Record CsiResponse : Type := {
  csi_ok : bool;
  csi_status : Z;
  csi_number : jsnum
}.

(** The argument object of [geminiClassify]. *)
Record ClassifyArgs : Type := {
  a_csi : number;
  a_radiance : number;
  a_vibe_score : number;
  a_lighting_score : number
}.

(* ================================================================== *)
(** ** [lib.ts]: crime baseline fetch *)

(** Direct version (CrimeoMeter API). *)
Module LibDirect.

Definition fetchCrimeoMeterCsi (res : CsiResponse) : result number :=
  if negb (csi_ok res) then Throw (RequestFailed "CrimeoMeter" (csi_status res) "")
  else
    match csi_number res with
    | Finite csi => Ok (Math_max 0 (Math_min 100 csi))
    | _ => Throw (Message "CrimeoMeter response missing csi")
    end.

End LibDirect.

(** Backend versions ([BACKEND_URL/crime/csi]); the same text in the
    backend [lib.ts] and in the backend-proxy one. *)
Module LibBackend.

Definition fetchCrimeoMeterCsi (res : CsiResponse) : result number :=
  if negb (csi_ok res) then Throw (RequestFailed "Backend crime/csi" (csi_status res) "")
  else
    match csi_number res with
    | Finite csi => Ok csi
    | _ => Throw (Message "Backend response missing csi")
    end.

End LibBackend.

(* ================================================================== *)
(** ** [lib.ts]: schema-validated classification *)

Module LibZod.

(** [z.enum([...])]: a string that is one of the members. *)
Definition z_enum {A : Type} (members : list (string * A)) (v : option json)
  : option A :=
  match v with
  | Some (JStr s) => assoc s members
  | _ => None
  end.

(** [z.number().min(lo).max(hi)]: a number, not [NaN], within the bounds. *)
Definition z_number_min_max (lo hi : Q) (v : option json) : option number :=
  match v with
  | Some (JNum (Finite q)) =>
      if Qle_bool lo q && Qle_bool q hi then Some q else None
  | _ => None
  end.

(** [z.string().max(n)]: a string of at most [n] characters. *)
Definition z_string_max (n : nat) (v : option json) : option string :=
  match v with
  | Some (JStr s) => if (String.length s <=? n)%nat then Some s else None
  | _ => None
  end.

Definition riskLevels : list (string * RiskLevel) :=
  [("SAFE", SAFE); ("CAUTION", CAUTION); ("UNSAFE", UNSAFE)]%string.

Definition classifications : list (string * Classification) :=
  [("SAFE", Cls_SAFE); ("UNSAFE", Cls_UNSAFE);
   ("SOCIAL_BALANCED", SOCIAL_BALANCED);
   ("INFRA_MISMATCH", INFRA_MISMATCH); ("UNCERTAIN", UNCERTAIN)]%string.

(** [outputSchema.parse]: zod's [z.object({...}).parse], following the
    library's documentation: the value must be an object, every listed
    key must hold a value of its type, keys that are not listed are
    dropped, and any violation throws a [ZodError]. *)
Definition outputSchema_parse (v : json) : result ModelOut :=
  match v with
  | JObj _ =>
      match z_enum riskLevels (prop v "risk_level"),
            z_enum classifications (prop v "classification"),
            z_number_min_max 0 1 (prop v "confidence"),
            z_string_max 240 (prop v "rationale") with
      | Some r, Some c, Some q, Some s =>
          Ok {| mo_risk_level := r; mo_classification := c;
                mo_confidence := q; mo_rationale := s |}
      | _, _, _, _ => Throw ZodError
      end
  | _ => Throw ZodError
  end.

(** [geminiClassify], from the answer of the model on: [text] is what
    [JSON.parse(resp.text)] reads, [None] when [resp.text] is not JSON. *)
Definition geminiClassify (text : option json) : result ModelOut :=
  match text with
  | None => Throw SyntaxError
  | Some v => outputSchema_parse v
  end.

End LibZod.

(** The output schema as the specification words it: enum membership for
    risk_level and classification, numeric range for confidence, length
    bound for rationale. *)
Definition conforms (v : json) : Prop :=
  exists (fields : list (string * json)) (r c s : string) (q : Q),
    v = JObj fields /\
    assoc "risk_level" fields = Some (JStr r) /\
    In r ["SAFE"; "CAUTION"; "UNSAFE"]%string /\
    assoc "classification" fields = Some (JStr c) /\
    In c ["SAFE"; "UNSAFE"; "SOCIAL_BALANCED"; "INFRA_MISMATCH"; "UNCERTAIN"]%string /\
    assoc "confidence" fields = Some (JNum (Finite q)) /\
    0 <= q <= 1 /\
    assoc "rationale" fields = Some (JStr s) /\
    (String.length s <= 240)%nat.

(* ================================================================== *)
(** ** Backend-proxy [lib.ts]: classification delegated to the backend *)

Module LibProxy.

(** What this [geminiClassify] returns at run time: the declared type
    promises a [RiskLevel] and a [Classification], the code forwards
    whatever the backend sent. *)
Record RawModelOut : Type := {
  raw_risk_level : option json;
  raw_classification : option json;
  raw_confidence : jsnum;
  raw_rationale : string
}.

(** [a ?? b] *)
Definition nullish (a : option json) (b : json) : json :=
  match a with
  | None | Some JNull => b
  | Some v => v
  end.

Section Runtime.

(** Conversions of the language runtime between strings and numbers. *)
Variable StringToNumber : string -> jsnum.
Variable NumberToString : jsnum -> string.

(** [String(v)] *)
Fixpoint ToString (v : json) : string :=
  match v with
  | JNull => "null"
  | JBool true => "true"
  | JBool false => "false"
  | JNum n => NumberToString n
  | JStr s => s
  | JArr items =>
      String.concat ","
        (map (fun x => match x with JNull => EmptyString | _ => ToString x end)
             items)
  | JObj _ => "[object Object]"
  end%string.

(** [Number(v)] *)
Definition ToNumber (v : json) : jsnum :=
  match v with
  | JNull => Finite 0
  | JBool true => Finite 1
  | JBool false => Finite 0
  | JNum n => n
  | JStr s => StringToNumber s
  | JArr _ | JObj _ => StringToNumber (ToString v)
  end.

Definition geminiClassify (res : HttpResponse) : result RawModelOut :=
  if negb (res_ok res)
  then Throw (RequestFailed "Backend gemini/classify" (res_status res)
                            (substring 0 200 (res_text res)))
  else
    match res_json res with
    | None => Throw SyntaxError
    | Some JNull => Throw TypeError
    | Some out =>
        Ok {| raw_risk_level := prop out "risk_level";
              raw_classification := prop out "classification";
              raw_confidence :=
                ToNumber (nullish (prop out "confidence") (JNum (Finite lit_0_55)));
              raw_rationale :=
                substring 0 240
                  (ToString (nullish (prop out "rationale") (JStr EmptyString))) |}
    end.

End Runtime.

End LibProxy.

(* ================================================================== *)
(** ** [App.tsx]: [assess] *)

Section App.

(** The two functions [App.tsx] imports from ["./lib"] that differ
    between the versions of [lib.ts].  [geminiClassify] stands for the
    library function applied to the answer of the reasoning service. *)
Variable fetchCrimeoMeterCsi : CsiResponse -> result number.
Variable geminiClassify : ClassifyArgs -> result ModelOut.

(** [assess].  [canRun] is the key guard of the version with pasted
    keys ([true] in the other one), [found] the outcome of
    [placeTextSearch], [crime] the answer to the crime query and
    [radianceOverride] the value of [Number(radianceOverride)].  The two
    versions differ in nothing else but the wording of the radiance
    message. *)
Definition assess (canRun : bool) (found : result (option PlaceCandidate))
    (crime : CsiResponse) (radianceOverride : jsnum) : result GlowPathResult :=
  if negb canRun
  then Throw (Message "Paste your Google Maps key and CrimeoMeter key first.")
  else
    dest <- found ;;
    match dest with
    | None => Throw (Message "No place found for that name.")
    | Some _ =>
        csi <- fetchCrimeoMeterCsi crime ;;
        match radianceOverride with
        | Finite radiance =>
            let lighting := lightingScoreFromRadiance radiance in
            let vibe := vibeScore csi lighting in
            let warmth := socialWarmthProxy csi lighting in
            modelOut <- geminiClassify
                          {| a_csi := csi; a_radiance := radiance;
                             a_vibe_score := vibe; a_lighting_score := lighting |} ;;
            let expected := riskLevelFromVibe vibe in
            let fixedModelOut :=
              {| mo_risk_level := expected;
                 mo_classification := mo_classification modelOut;
                 mo_confidence := mo_confidence modelOut;
                 mo_rationale := mo_rationale modelOut |} in
            Ok (assembleFinalResult
                  {| p_vibe_score := vibe;
                     p_lighting_score := lighting;
                     p_crime_baseline := Math_round csi;
                     p_social_warmth := warmth;
                     p_modelOut := fixedModelOut |})
        | _ => Throw (Message "Night-light intensity must be a number.")
        end
    end.

End App.

(* ================================================================== *)
(** ** [App.tsx]: [findAlternatives] (time-aware version) *)

(** [Array.prototype.sort(cmp)].  The language requires the sort to be
    stable and, for a consistent comparator, to order by it; this is the
    stable insertion sort.  [cmp a b <= 0] keeps [a] before [b]. *)
Section ArraySort.

Context {A : Type}.
Variable cmp : A -> A -> number.

Fixpoint insert (x : A) (l : list A) : list A :=
  match l with
  | [] => [x]
  | y :: l' => if Qle_bool (cmp x y) 0 then x :: y :: l' else y :: insert x l'
  end.

Fixpoint Array_sort (l : list A) : list A :=
  match l with
  | [] => []
  | x :: l' => insert x (Array_sort l')
  end.

End ArraySort.

(** [p.open_at_time === true ? 1 : 0] *)
Definition openFlag (p : PlaceCandidate) : number :=
  match pc_open_at_time p with
  | Some true => 1
  | _ => 0
  end.

(** [p.vibe_score ?? 0] *)
Definition vibeOrZero (p : PlaceCandidate) : number :=
  match pc_vibe_score p with
  | Some v => v
  | None => 0
  end.

(** The comparator handed to [kept.sort]. *)
Definition compareAlternatives (a b : PlaceCandidate) : number :=
  let ao := openFlag a in
  let bo := openFlag b in
  if negb (Qeq_bool bo ao) then (bo - ao)%js
  else (vibeOrZero b - vibeOrZero a)%js.

(** [p.open_at_time !== false] *)
Definition notClosed (p : PlaceCandidate) : bool :=
  match pc_open_at_time p with
  | Some false => false
  | _ => true
  end.

(** [{ ...c, vibe_score: vibe, risk_level: riskLevelFromVibe(vibe) }] *)
Definition withScore (c : PlaceCandidate) (vibe : number) : PlaceCandidate :=
  {| pc_open_at_time := pc_open_at_time c;
     pc_hours_known := pc_hours_known c;
     pc_name := pc_name c;
     pc_address := pc_address c;
     pc_location := pc_location c;
     pc_placeId := pc_placeId c;
     pc_vibe_score := Some vibe;
     pc_risk_level := Some (riskLevelFromVibe vibe) |}.

(** The filter, the sort and the cut that end [findAlternatives]:
    [scored.filter(...)], [kept.sort(...)], [kept.slice(0, 5)]. *)
Definition rankAlternatives (scored : list PlaceCandidate) : list PlaceCandidate :=
  let kept := filter notClosed scored in
  let kept := Array_sort compareAlternatives kept in
  firstn 5 kept.

Section Alternatives.

Variable fetchCrimeoMeterCsi : CsiResponse -> result number.

(** The scoring loop: one crime query per shortlisted candidate, in
    order; the first failure ends the whole operation. *)
Fixpoint scoreAll (crimeOf : PlaceCandidate -> CsiResponse) (lighting : number)
    (shortlist : list PlaceCandidate) : result (list PlaceCandidate) :=
  match shortlist with
  | [] => Ok []
  | c :: rest =>
      csi <- fetchCrimeoMeterCsi (crimeOf c) ;;
      let vibe := vibeScore csi lighting in
      scored <- scoreAll crimeOf lighting rest ;;
      Ok (withScore c vibe :: scored)
  end.

(** [findAlternatives]: [found] and [candidates] are the outcomes of
    [placeTextSearch] and [nearbyCandidates], [crimeOf] the answer to
    each candidate's crime query.  The date entered is taken to be valid:
    [whenIso()], evaluated for the call of [nearbyCandidates], throws a
    RangeError on an invalid one, a failure that is not among the outcomes
    here. *)
Definition findAlternatives (found : result (option PlaceCandidate))
    (candidates : result (list PlaceCandidate))
    (crimeOf : PlaceCandidate -> CsiResponse) (radianceOverride : jsnum)
  : result (list PlaceCandidate) :=
  dest <- found ;;
  match dest with
  | None => Throw (Message "No place found for that name.")
  | Some _ =>
      candidates <- candidates ;;
      match radianceOverride with
      | Finite radiance =>
          let lighting := lightingScoreFromRadiance radiance in
          let shortlist := firstn 10 candidates in
          scored <- scoreAll crimeOf lighting shortlist ;;
          Ok (rankAlternatives scored)
      | _ => Throw (Message "Night-light intensity must be a number.")
      end
  end.

End Alternatives.

(** [p] is the candidate [c] with the score of its crime query attached. *)
Definition scoredFrom (fetch : CsiResponse -> result number)
    (crimeOf : PlaceCandidate -> CsiResponse) (lighting : number)
    (c p : PlaceCandidate) : Prop :=
  exists csi, fetch (crimeOf c) = Ok csi /\ p = withScore c (vibeScore csi lighting).

(** The sort keys of the specification: open first, then the higher
    score.  [ranksBefore a b] says that [b] must not precede [a]. *)
Definition isOpen (p : PlaceCandidate) : bool :=
  match pc_open_at_time p with
  | Some true => true
  | _ => false
  end.

Definition ranksBefore (a b : PlaceCandidate) : Prop :=
  (isOpen b = true -> isOpen a = true) /\
  (isOpen a = isOpen b -> vibeOrZero b <= vibeOrZero a).

(** Two candidates tie when both keys agree. *)
Definition sameKeys (a b : PlaceCandidate) : bool :=
  Bool.eqb (isOpen a) (isOpen b) && Qeq_bool (vibeOrZero a) (vibeOrZero b).

(** The ranking rule in the words of the specification, read on the
    fields of scored candidates and not through the comparator's reads:
    an open candidate is ahead of one that is not, and inside a group the
    higher vibe_score is ahead. *)
Definition ranksAhead (a b : PlaceCandidate) : Prop :=
  exists va vb,
    pc_vibe_score a = Some va /\ pc_vibe_score b = Some vb /\
    ((pc_open_at_time a = Some true /\ pc_open_at_time b <> Some true) \/
     ((pc_open_at_time a = Some true <-> pc_open_at_time b = Some true) /\ vb <= va)).

(** Descending vibe_score, the one key of the version with pasted keys. *)
Definition scoreDescending (a b : PlaceCandidate) : Prop :=
  exists va vb, pc_vibe_score a = Some va /\ pc_vibe_score b = Some vb /\ vb <= va.

(** Two scored candidates tie when they are in the same group and carry
    equal scores. *)
Definition tiedWith (a b : PlaceCandidate) : bool :=
  match pc_vibe_score a, pc_vibe_score b with
  | Some va, Some vb => Bool.eqb (isOpen a) (isOpen b) && Qeq_bool va vb
  | _, _ => false
  end.

(** The candidates that are not explicitly closed, in their order. *)
Definition survivors (scored : list PlaceCandidate) : list PlaceCandidate :=
  filter (fun p => match pc_open_at_time p with Some false => false | _ => true end)
         scored.

(** Every finite binary64 number is an integer multiple of 2^-1074, the
    least positive one; [double] is that property. *)
Definition double (q : Q) : Prop :=
  exists M : Z, q == inject_Z M * 2 ^ (-1074).

(** The three candidates of the ranking scenario. *)
Definition candidate (name : string) (open : option bool) (vibe : number)
  : PlaceCandidate :=
  {| pc_open_at_time := open;
     pc_hours_known := Some true;
     pc_name := name;
     pc_address := None;
     pc_location := {| lat := 0; lng := 0 |};
     pc_placeId := None;
     pc_vibe_score := Some vibe;
     pc_risk_level := Some (riskLevelFromVibe vibe) |}.

Definition candA : PlaceCandidate := candidate "A" (Some false) 90.
Definition candB : PlaceCandidate := candidate "B" (Some true) 50.
Definition candC : PlaceCandidate := candidate "C" None 80.

(** The integer grid on which the blends are compared with other
    definitions: every integer csi of [0,100], every lighting bucket. *)
Definition csi_grid : list Z := map Z.of_nat (seq 0 101).
Definition lighting_buckets : list Z := [15; 35; 65; 85]%Z.

Definition on_grid (P : Z -> Z -> bool) : bool :=
  forallb (fun c => forallb (P c) lighting_buckets) csi_grid.

(** Insertion sort by a boolean order, the shape the proofs work on:
    [Array_sort cmp] is [sort_by (fun a b => Qle_bool (cmp a b) 0)]. *)
Section SortBy.

Context {A : Type}.
Variable le : A -> A -> bool.

Fixpoint insert_by (x : A) (l : list A) : list A :=
  match l with
  | [] => [x]
  | y :: l' => if le x y then x :: y :: l' else y :: insert_by x l'
  end.

Fixpoint sort_by (l : list A) : list A :=
  match l with
  | [] => []
  | x :: l' => insert_by x (sort_by l')
  end.

End SortBy.

(** The order of the two sort keys, decided: [a] may stand before [b]. *)
Definition keyLeb (a b : PlaceCandidate) : bool :=
  if Bool.eqb (isOpen a) (isOpen b)
  then Qle_bool (vibeOrZero b) (vibeOrZero a)
  else isOpen a.

(* ================================================================== *)
(** ** Scenarios *)

(** A run of [assess] in which the classifier answers SAFE for a score
    of 19. *)
Definition somewhere : PlaceCandidate :=
  {| pc_open_at_time := None; pc_hours_known := None; pc_name := "Soho, London";
     pc_address := None; pc_location := {| lat := 51; lng := 0 |};
     pc_placeId := None; pc_vibe_score := None; pc_risk_level := None |}.

Definition answers_SAFE (_ : ClassifyArgs) : result ModelOut :=
  Ok {| mo_risk_level := SAFE; mo_classification := UNCERTAIN;
        mo_confidence := 1 # 2; mo_rationale := "CSI high, lighting low" |}.

Definition crime_answer (csi : number) : CsiResponse :=
  {| csi_ok := true; csi_status := 200; csi_number := Finite csi |}.

(** An answer whose risk_level is "MAYBE" and whose confidence is 1.5. *)
Definition invalid_answer : json :=
  JObj [("risk_level", JStr "MAYBE"); ("classification", JStr "SAFE");
        ("confidence", JNum (Finite (3 # 2))); ("rationale", JStr "dark street")]%string.

Definition ok_response (body : json) : HttpResponse :=
  {| res_ok := true; res_status := 200; res_text := ""; res_json := Some body |}.

(* ================================================================== *)
(** ** JavaScript values: truthiness, optional reads *)

(** [Boolean(v)], also the test behind [!v] and [filter]; [None] is
    [undefined]. *)
Definition ToBoolean (v : option json) : bool :=
  match v with
  | None | Some JNull => false
  | Some (JBool b) => b
  | Some (JNum (Finite q)) => negb (Qeq_bool q 0)
  | Some (JNum NaN) => false
  | Some (JNum _) => true
  | Some (JStr s) => negb (String.eqb s EmptyString)
  | Some (JArr _) | Some (JObj _) => true
  end.

(** [v?.k] *)
Definition optProp (v : option json) (k : string) : option json :=
  match v with
  | None | Some JNull => None
  | Some x => prop x k
  end.

(** [v?.[0]]: the first element of an array, the first code unit of a
    string, the property ["0"] of an object. *)
Definition optIndex0 (v : option json) : option json :=
  match v with
  | Some (JArr (x :: _)) => Some x
  | Some (JStr (String c _)) => Some (JStr (String c EmptyString))
  | Some (JObj fields) => assoc "0" fields
  | _ => None
  end.

(** [items.map(f)] with a callback that can throw: the first failure, in
    order, ends the call. *)
Fixpoint mapM {A B : Type} (f : A -> result B) (items : list A) : result (list B) :=
  match items with
  | [] => Ok []
  | x :: rest =>
      y <- f x ;;
      ys <- mapM f rest ;;
      Ok (y :: ys)
  end.

(** A place as the lookup functions return it at run time: the declared
    type promises strings and numbers, the code forwards what it
    received.  The name went through [?? fallback], so it is never
    [null] or [undefined]. *)
Record RawPlace : Type := {
  rp_name : json;
  rp_address : option json;
  rp_lat : option json;
  rp_lng : option json;
  rp_placeId : option json
}.

(** A candidate of the time-aware [nearbyCandidates]. *)
Record RawCandidate : Type := {
  rc_place : RawPlace;
  rc_hours_known : bool;
  rc_open_at_time : option bool
}.

(* ================================================================== *)
(** ** [lib.ts]: place lookup through the backend *)

Module BackendPlaces.

(** The object literal built from one place [p]: [p.name ?? fallback],
    [p.address], [p.location.lat], [p.location.lng], [p.placeId]. *)
Definition rawPlace (fallback : string) (p : json) : result RawPlace :=
  match p with
  | JNull => Throw TypeError
  | _ =>
      match prop p "location" with
      | None | Some JNull => Throw TypeError
      | Some loc =>
          Ok {| rp_name := LibProxy.nullish (prop p "name") (JStr fallback);
                rp_address := prop p "address";
                rp_lat := prop loc "lat";
                rp_lng := prop loc "lng";
                rp_placeId := prop p "placeId" |}
      end
  end.

Definition placeTextSearch (res : HttpResponse) (query : string)
  : result (option RawPlace) :=
  if (res_status res =? 404)%Z then Ok None
  else if negb (res_ok res)
  then Throw (RequestFailed "Backend place/text" (res_status res) "")
  else
    match res_json res with
    | None => Throw SyntaxError
    | Some p => place <- rawPlace query p ;; Ok (Some place)
    end.

(** [nearbyCandidates] of the backend version without opening hours. *)
Definition nearbyCandidates (res : HttpResponse) : result (list RawPlace) :=
  if negb (res_ok res)
  then Throw (RequestFailed "Backend place/nearby" (res_status res) "")
  else
    match res_json res with
    | None => Throw SyntaxError
    | Some JNull => Ok []
    | Some (JArr items) => mapM (rawPlace "Unknown") items
    | Some _ => Throw TypeError
    end.

End BackendPlaces.

(** The time-aware version ([place/nearby_open]); its [placeTextSearch] is
    the text of [BackendPlaces.placeTextSearch]. *)
Module TimeAwarePlaces.

(** [p.open_at_time === true ? true : (p.open_at_time === false ? false : null)] *)
Definition normalizeOpen (v : option json) : option bool :=
  match v with
  | Some (JBool true) => Some true
  | Some (JBool false) => Some false
  | _ => None
  end.

Definition rawCandidate (p : json) : result RawCandidate :=
  place <- BackendPlaces.rawPlace "Unknown" p ;;
  Ok {| rc_place := place;
        rc_hours_known := ToBoolean (prop p "hours_known");
        rc_open_at_time := normalizeOpen (prop p "open_at_time") |}.

Definition nearbyCandidates (res : HttpResponse) : result (list RawCandidate) :=
  if negb (res_ok res)
  then Throw (RequestFailed "Backend place/nearby_open" (res_status res) "")
  else
    match res_json res with
    | None => Throw SyntaxError
    | Some JNull => Ok []
    | Some (JArr items) => mapM rawCandidate items
    | Some _ => Throw TypeError
    end.

End TimeAwarePlaces.

(* ================================================================== *)
(** ** [lib.ts]: place lookup with the Places API (direct version) *)

Module DirectPlaces.

(** The object literal built from a place [p] whose [location] is truthy:
    [p.displayName?.text ?? fallback], [p.formattedAddress],
    [p.location.latitude], [p.location.longitude], [p.id]. *)
Definition rawPlace (fallback : string) (p : json) : RawPlace :=
  {| rp_name := LibProxy.nullish (optProp (prop p "displayName") "text") (JStr fallback);
     rp_address := prop p "formattedAddress";
     rp_lat := optProp (prop p "location") "latitude";
     rp_lng := optProp (prop p "location") "longitude";
     rp_placeId := prop p "id" |}.

(** [p?.location], tested for truthiness. *)
Definition hasLocation (p : json) : bool :=
  ToBoolean (optProp (Some p) "location").

Definition placeTextSearch (res : HttpResponse) (query : string)
  : result (option RawPlace) :=
  if negb (res_ok res)
  then Throw (RequestFailed "Places Text Search" (res_status res) "")
  else
    match res_json res with
    | None => Throw SyntaxError
    | Some data =>
        match optIndex0 (optProp (Some data) "places") with
        | Some p => if hasLocation p then Ok (Some (rawPlace query p)) else Ok None
        | None => Ok None
        end
    end.

Definition nearbyCandidates (res : HttpResponse) : result (list RawPlace) :=
  if negb (res_ok res)
  then Throw (RequestFailed "Places Nearby" (res_status res) "")
  else
    match res_json res with
    | None => Throw SyntaxError
    | Some data =>
        match optProp (Some data) "places" with
        | None | Some JNull => Ok []
        | Some (JArr places) => Ok (map (rawPlace "Unknown") (filter hasLocation places))
        | Some _ => Throw TypeError
        end
    end.

End DirectPlaces.

(* ================================================================== *)
(** ** [App.tsx]: presentation helpers of the time-aware version *)

Definition clamp01 (x : number) : number := Math_max 0 (Math_min 1 x).

Definition pillClass (level : string) : string :=
  if String.eqb level "SAFE" then "pill pill-safe"
  else if String.eqb level "CAUTION" then "pill pill-caution"
  else "pill pill-unsafe".

Definition labelForScore (v : number) : string :=
  if geb v 65 then "Good"
  else if geb v 40 then "Mixed"
  else "Poor".

Record Badge : Type := { badge_text : string; badge_cls : string }.

Definition openBadge (p : PlaceCandidate) : Badge :=
  match pc_open_at_time p with
  | Some true => {| badge_text := "OPEN"; badge_cls := "pill pill-safe" |}
  | Some false => {| badge_text := "CLOSED"; badge_cls := "pill pill-unsafe" |}
  | None => {| badge_text := "HOURS UNKNOWN"; badge_cls := "pill pill-caution" |}
  end.

(** A [RiskLevel] is the string of its name. *)
Definition riskLevelText (r : RiskLevel) : string :=
  match r with
  | SAFE => "SAFE"
  | CAUTION => "CAUTION"
  | UNSAFE => "UNSAFE"
  end.

(** The object computed by [useMemo] from [result]. *)
Record Summary : Type := {
  sm_vibe : number;
  sm_vibeLabel : string;
  sm_risk : RiskLevel;
  sm_classification : Classification;
  sm_confPct : number
}.

Definition summary (result : option GlowPathResult) : option Summary :=
  match result with
  | None => None
  | Some r =>
      Some {| sm_vibe := vibe_score r;
              sm_vibeLabel := labelForScore (vibe_score r);
              sm_risk := risk_level r;
              sm_classification := classification r;
              sm_confPct := Math_round (clamp01 (confidence r) * 100)%js |}
  end.

(* ================================================================== *)
(** ** [App.tsx]: [findAlternatives] of the version with pasted keys *)

(** [(a, b) => (b.vibe_score ?? 0) - (a.vibe_score ?? 0)] *)
Definition compareByVibe (a b : PlaceCandidate) : number :=
  (vibeOrZero b - vibeOrZero a)%js.

Section KeyedAlternatives.

Variable fetchCrimeoMeterCsi : CsiResponse -> result number.

Definition findAlternativesKeyed (canRun : bool)
    (found : result (option PlaceCandidate))
    (candidates : result (list PlaceCandidate))
    (crimeOf : PlaceCandidate -> CsiResponse) (radianceOverride : jsnum)
  : result (list PlaceCandidate) :=
  if negb canRun
  then Throw (Message "Paste your Google Maps key and CrimeoMeter key first.")
  else
    dest <- found ;;
    match dest with
    | None => Throw (Message "No place found for that name.")
    | Some _ =>
        candidates <- candidates ;;
        match radianceOverride with
        | Finite radiance =>
            let lighting := lightingScoreFromRadiance radiance in
            let shortlist := firstn 8 candidates in
            scored <- scoreAll fetchCrimeoMeterCsi crimeOf lighting shortlist ;;
            let scored := Array_sort compareByVibe scored in
            Ok (firstn 5 scored)
        | _ => Throw (Message "Radiance override must be a number.")
        end
    end.

End KeyedAlternatives.

(** Descending score, decided. *)
Definition vibeGeb (a b : PlaceCandidate) : bool :=
  Qle_bool (vibeOrZero b) (vibeOrZero a).

(* ================================================================== *)
(** ** [App.tsx]: the state the two handlers leave behind *)

(** The four pieces of state the handlers write. *)
Record UiState : Type := {
  ui_status : string;
  ui_err : string;
  ui_result : option GlowPathResult;
  ui_alts : list PlaceCandidate
}.

Definition setStatus (v : string) (s : UiState) : UiState :=
  {| ui_status := v; ui_err := ui_err s; ui_result := ui_result s; ui_alts := ui_alts s |}.
Definition setErr (v : string) (s : UiState) : UiState :=
  {| ui_status := ui_status s; ui_err := v; ui_result := ui_result s; ui_alts := ui_alts s |}.
Definition setResult (v : option GlowPathResult) (s : UiState) : UiState :=
  {| ui_status := ui_status s; ui_err := ui_err s; ui_result := v; ui_alts := ui_alts s |}.
Definition setAlts (v : list PlaceCandidate) (s : UiState) : UiState :=
  {| ui_status := ui_status s; ui_err := ui_err s; ui_result := ui_result s; ui_alts := v |}.

Section Handlers.

(** [e?.message ?? "Unknown error"] for a thrown value. *)
Variable messageOf : exn -> string.

(** The click handler around [assess], one run taken alone: [outcome] is
    what the [try] block computes.  The status texts written while a call
    is pending are overwritten before the handler ends (the first one is
    kept here, without its ellipsis). *)
Definition assessHandler (outcome : result GlowPathResult) (s : UiState) : UiState :=
  let s := setAlts [] (setResult None (setStatus "Finding place" (setErr "" s))) in
  match outcome with
  | Ok r => setStatus "Done." (setResult (Some r) s)
  | Throw e => setErr (messageOf e) (setStatus "" s)
  end.

(** The click handler around [findAlternatives]. *)
Definition alternativesHandler (outcome : result (list PlaceCandidate)) (s : UiState)
  : UiState :=
  let s := setAlts [] (setStatus "Finding nearby alternatives" (setErr "" s)) in
  match outcome with
  | Ok alts => setStatus "Done." (setAlts alts s)
  | Throw e => setErr (messageOf e) (setStatus "" s)
  end.

End Handlers.

(** Candidates as discovery returns them, before scoring, and a crime
    service that answers 40 everywhere except for the place named
    "down", where it fails. *)
Definition unscored (name : string) (open : option bool) : PlaceCandidate :=
  {| pc_open_at_time := open;
     pc_hours_known := Some true;
     pc_name := name;
     pc_address := None;
     pc_location := {| lat := 0; lng := 0 |};
     pc_placeId := None;
     pc_vibe_score := None;
     pc_risk_level := None |}.

Definition crimeNearby (p : PlaceCandidate) : CsiResponse :=
  if String.eqb (pc_name p) "down"
  then {| csi_ok := false; csi_status := 503; csi_number := NaN |}
  else crime_answer 40.

Definition threePlaces : list PlaceCandidate :=
  [unscored "cafe" None; unscored "bar" (Some false); unscored "station" (Some true)].

(** Ten places with unknown hours, then an open one in the eleventh
    position. *)
Definition elevenPlaces : list PlaceCandidate :=
  repeat (unscored "cafe" None) 10 ++ [unscored "station" (Some true)].

(** Places as the backend sends them. *)
Definition placeJson (name : string) : json :=
  JObj [("name", JStr name);
        ("location", JObj [("lat", JNum (Finite 51)); ("lng", JNum (Finite 0))])]%string.
Definition directPlaceJson (name : string) : json :=
  JObj [("id", JStr name);
        ("location", JObj [("latitude", JNum (Finite 51));
                           ("longitude", JNum (Finite 0))])]%string.

(* ================================================================== *)
(** * Properties *)

(* ================================================================== *)
(** ** Rounding into binary64: order properties *)

Section Rounding.

Lemma pow2_pos (e : Z) : 0 < 2 ^ e.
Proof. apply Qpower_0_lt. reflexivity. Qed.

Lemma pow2_add (a b : Z) : 2 ^ (a + b) == 2 ^ a * 2 ^ b.
Proof. apply Qpower_plus. discriminate. Qed.

Lemma pow2_le (a b : Z) : (a <= b)%Z -> 2 ^ a <= 2 ^ b.
Proof. intros H. apply Qpower_le_compat_l; [exact H | discriminate]. Qed.

Lemma pow2_lt_inv (a b : Z) : 2 ^ a < 2 ^ b -> (a < b)%Z.
Proof.
  intros H. apply (Qpower_lt_compat_l_inv 2); [exact H | reflexivity].
Qed.

Lemma pow2_Z (n : Z) : (0 <= n)%Z -> 2 ^ n == inject_Z (2 ^ n).
Proof. intros H. rewrite Zpower_Qpower by exact H. reflexivity. Qed.

Lemma Zlog2_Q (n : Z) : (0 < n)%Z ->
  2 ^ Z.log2 n <= inject_Z n /\ inject_Z n < 2 ^ (Z.log2 n + 1).
Proof.
  intros H. destruct (Z.log2_spec n H) as [L U].
  pose proof (Z.log2_nonneg n) as P.
  rewrite !pow2_Z by lia. rewrite <- Zle_Qle, <- Zlt_Qlt.
  split; [exact L | ]. replace (Z.log2 n + 1)%Z with (Z.succ (Z.log2 n)) by lia. exact U.
Qed.

Lemma ilog2_spec (a : Q) : 0 < a -> 2 ^ ilog2 a <= a /\ a < 2 ^ (ilog2 a + 1).
Proof.
  intros Ha. unfold ilog2.
  set (n := Qnum a). set (d := Zpos (Qden a)).
  assert (Hn : (0 < n)%Z).
  { unfold n. destruct a as [an ad]. unfold Qlt in Ha. simpl in *. lia. }
  assert (Hd : (0 < d)%Z) by (unfold d; lia).
  destruct (Zlog2_Q n Hn) as [Ln Un]. destruct (Zlog2_Q d Hd) as [Ld Ud].
  assert (Ea : a * inject_Z d == inject_Z n).
  { unfold n, d. destruct a as [an ad]. unfold Qeq, Qmult, inject_Z. simpl. lia. }
  assert (Dpos : 0 < inject_Z d) by (rewrite <- (Zlt_Qlt 0); exact Hd).
  set (k := (Z.log2 n - Z.log2 d)%Z).
  assert (Up : a < 2 ^ (k + 1)).
  { apply (Qmult_lt_r _ _ (2 ^ Z.log2 d)); [apply pow2_pos | ].
    rewrite <- pow2_add. replace (k + 1 + Z.log2 d)%Z with (Z.log2 n + 1)%Z by (unfold k; lia).
    apply Qle_lt_trans with (a * inject_Z d).
    - apply Qmult_le_l; [exact Ha | exact Ld].
    - rewrite Ea. exact Un. }
  assert (Lo : 2 ^ (k - 1) <= a).
  { apply (Qmult_le_r _ _ (2 ^ (Z.log2 d + 1))); [apply pow2_pos | ].
    rewrite <- pow2_add. replace (k - 1 + (Z.log2 d + 1))%Z with (Z.log2 n) by (unfold k; lia).
    apply Qle_trans with (a * inject_Z d).
    - rewrite Ea. exact Ln.
    - apply Qmult_le_l; [exact Ha | apply Qlt_le_weak; exact Ud]. }
  destruct (Qle_bool (2 ^ k) a) eqn:B.
  - split; [apply Qle_bool_iff; exact B | exact Up].
  - split; [exact Lo | ].
    replace (k - 1 + 1)%Z with k by lia.
    apply Qnot_le_lt. intros C. apply Qle_bool_iff in C. congruence.
Qed.

Lemma ilog2_mono (a b : Q) : 0 < a -> a <= b -> (ilog2 a <= ilog2 b)%Z.
Proof.
  intros Ha Hab.
  destruct (ilog2_spec a Ha) as [La _].
  destruct (ilog2_spec b (Qlt_le_trans _ _ _ Ha Hab)) as [_ Ub].
  assert (H : 2 ^ ilog2 a < 2 ^ (ilog2 b + 1)).
  { apply Qle_lt_trans with a; [exact La | ]. apply Qle_lt_trans with b; assumption. }
  apply pow2_lt_inv in H. lia.
Qed.

Lemma expo_mono (a b : Q) : 0 < a -> a <= b -> (expo a <= expo b)%Z.
Proof. intros Ha Hab. pose proof (ilog2_mono a b Ha Hab). unfold expo. lia. Qed.

Lemma round_half_even_le (x : Q) (K : Z) : x <= inject_Z K -> (round_half_even x <= K)%Z.
Proof.
  intros H. unfold round_half_even.
  pose proof (Qfloor_le x) as Fl.
  assert (FK : (Qfloor x <= K)%Z).
  { rewrite Zle_Qle. apply Qle_trans with x; assumption. }
  destruct (Z.eq_dec (Qfloor x) K) as [E | NE].
  - assert (X : x == inject_Z K).
    { apply Qle_antisym; [exact H | rewrite <- E; exact Fl]. }
    assert (C : Qcompare (x - inject_Z (Qfloor x)) (1 # 2) = Lt).
    { rewrite <- Qlt_alt. rewrite E. lra. }
    rewrite C. lia.
  - destruct (Qcompare _ _); [destruct (Z.even _) | | ]; lia.
Qed.

Lemma round_half_even_ge (x : Q) (K : Z) : inject_Z K <= x -> (K <= round_half_even x)%Z.
Proof.
  intros H. unfold round_half_even.
  assert (FK : (K <= Qfloor x)%Z).
  { rewrite <- (Qfloor_Z K). apply Qfloor_resp_le. exact H. }
  destruct (Qcompare _ _); [destruct (Z.even _) | | ]; lia.
Qed.

Lemma round_pos_le (q r : Q) :
  0 < q -> q <= r -> representable r -> round_pos q <= r.
Proof.
  intros Hq Hqr [M HM]. unfold round_pos.
  pose proof (expo_mono q r Hq Hqr) as He.
  set (e := expo q) in *.
  assert (Hr : r == inject_Z (M * 2 ^ (expo r - e)) * 2 ^ e).
  { rewrite inject_Z_mult, <- pow2_Z by lia. rewrite <- Qmult_assoc, <- pow2_add.
    replace (expo r - e + e)%Z with (expo r) by lia. exact HM. }
  rewrite Hr. apply Qmult_le_compat_r; [ | apply Qlt_le_weak, pow2_pos].
  rewrite <- Zle_Qle. apply round_half_even_le.
  apply Qle_shift_div_r; [apply pow2_pos | ]. rewrite <- Hr. exact Hqr.
Qed.

Lemma expo_normal (q : Q) : 0 < q -> (-1074 < expo q)%Z -> 2 ^ (expo q + 52) <= q.
Proof.
  intros Hq He. destruct (ilog2_spec q Hq) as [L _].
  unfold expo in *. replace (Z.max (ilog2 q - 52) (-1074) + 52)%Z with (ilog2 q) by lia. exact L.
Qed.

Lemma expo_upper (q : Q) : 0 < q -> q < 2 ^ (expo q + 53).
Proof.
  intros Hq. destruct (ilog2_spec q Hq) as [_ U].
  apply Qlt_le_trans with (1 := U). apply pow2_le. unfold expo. lia.
Qed.

Lemma round_pos_ge (q r : Q) :
  0 < r -> r <= q -> representable r -> r <= round_pos q.
Proof.
  intros Hr Hrq [M HM]. unfold round_pos.
  assert (Hq : 0 < q) by (apply Qlt_le_trans with r; assumption).
  pose proof (expo_mono r q Hr Hrq) as He.
  destruct (Z.eq_dec (expo r) (expo q)) as [E | NE].
  - rewrite <- E. rewrite HM at 1.
    apply Qmult_le_compat_r; [ | apply Qlt_le_weak, pow2_pos].
    rewrite <- Zle_Qle. apply round_half_even_ge.
    apply Qle_shift_div_l; [apply pow2_pos | ]. rewrite <- HM. exact Hrq.
  - assert (N : 2 ^ (expo q + 52) <= q) by (apply expo_normal; [exact Hq | unfold expo in *; lia]).
    apply Qle_trans with (2 ^ (expo q + 52)).
    + apply Qlt_le_weak. apply Qlt_le_trans with (1 := expo_upper r Hr).
      apply pow2_le. lia.
    + rewrite pow2_add, Qmult_comm. rewrite (pow2_Z 52) by lia.
      apply Qmult_le_compat_r; [ | apply Qlt_le_weak, pow2_pos].
      rewrite <- Zle_Qle. apply round_half_even_ge.
      apply Qle_shift_div_l; [apply pow2_pos | ].
      rewrite <- pow2_Z by lia. rewrite Qmult_comm, <- pow2_add. 
      replace (expo q + 52)%Z with (expo q + 52)%Z in N by lia. exact N.
Qed.

Lemma round_pos_nonneg (a : Q) : 0 < a -> 0 <= round_pos a.
Proof.
  intros Ha. unfold round_pos.
  apply Qmult_le_0_compat; [ | apply Qlt_le_weak, pow2_pos].
  rewrite <- (Zle_Qle 0). apply round_half_even_ge.
  apply Qle_shift_div_l; [apply pow2_pos | ].
  change (inject_Z 0) with 0. rewrite Qmult_0_l. apply Qlt_le_weak, Ha.
Qed.

Lemma binary64_nonneg (q : Q) : 0 <= q -> 0 <= binary64 q.
Proof.
  intros Hq. unfold binary64. destruct (Qcompare q 0) eqn:C.
  - lra.
  - rewrite <- Qlt_alt in C. lra.
  - rewrite <- Qgt_alt in C. apply round_pos_nonneg. exact C.
Qed.

(** Rounding never crosses a binary64 value from below... *)
Lemma binary64_le (q r : Q) :
  0 < r -> representable r -> q <= r -> binary64 q <= r.
Proof.
  intros Hr Rr Hqr. unfold binary64. destruct (Qcompare q 0) eqn:C.
  - lra.
  - rewrite <- Qlt_alt in C.
    assert (P : 0 <= round_pos (- q)) by (apply round_pos_nonneg; lra). lra.
  - rewrite <- Qgt_alt in C. apply round_pos_le; assumption.
Qed.

(** ... nor from above. *)
Lemma binary64_ge (q r : Q) :
  0 < r -> representable r -> r <= q -> r <= binary64 q.
Proof.
  intros Hr Rr Hrq. unfold binary64. destruct (Qcompare q 0) eqn:C.
  - apply Qeq_alt in C. lra.
  - rewrite <- Qlt_alt in C. lra.
  - apply round_pos_ge; assumption.
Qed.

(** A binary64 value is left as it is. *)
Lemma binary64_fixes_representable (r : Q) :
    0 < r -> representable r -> binary64 r == r.
Proof.
    intros Hr Rr. apply Qle_antisym.
    - apply binary64_le; [exact Hr | exact Rr | apply Qle_refl].
    - apply binary64_ge; [exact Hr | exact Rr | apply Qle_refl].
Qed.

End Rounding.

Ltac is_binary64 :=
  match goal with
  | |- representable ?r => exists (Qfloor (r / 2 ^ expo r)); vm_compute; reflexivity
  end.

Ltac by_computation := apply Qle_bool_iff; vm_compute; reflexivity.

(* ================================================================== *)
(** ** Scoring: auxiliary facts *)

Lemma Qle_bool_false (a b : Q) : Qle_bool a b = false -> b < a.
Proof.
  intros H. apply Qnot_le_lt. intros C. apply Qle_bool_iff in C. congruence.
Qed.

(** Turns the boolean comparisons among the hypotheses into inequalities. *)
Ltac reflect_Qle_bool :=
  repeat match goal with
         | E : Qle_bool _ _ = true |- _ => apply Qle_bool_iff in E
         | E : Qle_bool _ _ = false |- _ => apply Qle_bool_false in E
         end.

Lemma ltb_true (a b : number) : ltb a b = true <-> a < b.
Proof.
  unfold ltb. split.
  - intros H. apply Qle_bool_false. now apply negb_true_iff.
  - intros H. apply negb_true_iff. destruct (Qle_bool b a) eqn:E; [ | reflexivity].
    apply Qle_bool_iff in E. lra.
Qed.

Lemma ltb_false (a b : number) : ltb a b = false <-> b <= a.
Proof.
  unfold ltb. rewrite negb_false_iff. apply Qle_bool_iff.
Qed.

Lemma Math_max_spec (a b : number) :
  (a <= b /\ Math_max a b = b) \/ (b < a /\ Math_max a b = a).
Proof.
  unfold Math_max. destruct (Qle_bool a b) eqn:E.
  - left. split; [now apply Qle_bool_iff | reflexivity].
  - right. split; [now apply Qle_bool_false | reflexivity].
Qed.

Lemma Math_min_spec (a b : number) :
  (a <= b /\ Math_min a b = a) \/ (b < a /\ Math_min a b = b).
Proof.
  unfold Math_min. destruct (Qle_bool a b) eqn:E.
  - left. split; [now apply Qle_bool_iff | reflexivity].
  - right. split; [now apply Qle_bool_false | reflexivity].
Qed.

(** The clamp written in both blends. *)
Lemma clamp_range (x : number) :
  0 <= Math_max 0 (Math_min 100 x) <= 100.
Proof.
  destruct (Math_min_spec 100 x) as [[H1 ->] | [H1 ->]];
    [destruct (Math_max_spec 0 100) as [[H2 ->] | [H2 ->]]
    | destruct (Math_max_spec 0 x) as [[H2 ->] | [H2 ->]]]; lra.
Qed.

Lemma clamp_inside (x : number) :
  0 <= x <= 100 -> Math_max 0 (Math_min 100 x) == x.
Proof.
  intros [L U].
  destruct (Math_min_spec 100 x) as [[H1 ->] | [H1 ->]];
    [destruct (Math_max_spec 0 100) as [[H2 ->] | [H2 ->]]
    | destruct (Math_max_spec 0 x) as [[H2 ->] | [H2 ->]]]; lra.
Qed.

Lemma lit_0_7_range : 0 <= lit_0_7 <= 7 # 10.
Proof. split; by_computation. Qed.

Lemma lit_0_3_range : 0 <= lit_0_3 <= 3 # 10.
Proof. split; by_computation. Qed.

Lemma sub_100_range (c : number) : 0 <= c <= 100 -> 0 <= (100 - c)%js <= 100.
Proof.
  intros [L U]. unfold sub. split.
  - apply binary64_nonneg. lra.
  - apply binary64_le; [reflexivity | is_binary64 | lra].
Qed.

Lemma mul_0_7_range (x : number) : 0 <= x <= 100 -> 0 <= (lit_0_7 * x)%js <= 70.
Proof.
  intros [L U]. destruct lit_0_7_range as [A B]. unfold mul.
  generalize dependent lit_0_7. intros a A B. split.
  - apply binary64_nonneg. nra.
  - apply binary64_le; [reflexivity | is_binary64 | nra].
Qed.

Lemma mul_0_3_range (x : number) : 0 <= x <= 100 -> 0 <= (lit_0_3 * x)%js <= 30.
Proof.
  intros [L U]. destruct lit_0_3_range as [A B]. unfold mul.
  generalize dependent lit_0_3. intros a A B. split.
  - apply binary64_nonneg. nra.
  - apply binary64_le; [reflexivity | is_binary64 | nra].
Qed.

Lemma Math_round_range (x : number) (lo hi : Z) :
  inject_Z lo - (1 # 2) <= x -> x < inject_Z hi + (1 # 2) ->
  exists z : Z, Math_round x = inject_Z z /\ (lo <= z <= hi)%Z.
Proof.
  intros L U. exists (Qfloor (x + (1 # 2))). split; [reflexivity | ]. split.
  - rewrite <- (Qfloor_Z lo). apply Qfloor_resp_le. lra.
  - assert (H : (Qfloor (x + (1 # 2)) < hi + 1)%Z).
    { rewrite Zlt_Qlt. apply Qle_lt_trans with (x + (1 # 2)); [apply Qfloor_le | ].
      rewrite inject_Z_plus. change (inject_Z 1) with 1. lra. }
    lia.
Qed.

Lemma vibe_blend_range (c l : number) :
  0 <= c <= 100 -> 0 <= l <= 100 ->
  0 <= (lit_0_7 * (100 - c) + lit_0_3 * l)%js <= 100.
Proof.
  intros Hc Hl.
  pose proof (mul_0_7_range _ (sub_100_range c Hc)) as [P1 P2].
  pose proof (mul_0_3_range l Hl) as [Q1 Q2].
  unfold add. split.
  - apply binary64_nonneg. lra.
  - apply binary64_le; [reflexivity | is_binary64 | lra].
Qed.

Lemma warmth_blend_range (c l : number) :
  0 <= c <= 100 -> 0 <= l <= 100 ->
  0 <= (lit_0_7 * l + lit_0_3 * (100 - c))%js <= 100.
Proof.
  intros Hc Hl.
  pose proof (mul_0_3_range _ (sub_100_range c Hc)) as [P1 P2].
  pose proof (mul_0_7_range l Hl) as [Q1 Q2].
  unfold add. split.
  - apply binary64_nonneg. lra.
  - apply binary64_le; [reflexivity | is_binary64 | lra].
Qed.

Lemma lightingScore_cases (r : number) :
  (r < 1 # 2 /\ lightingScoreFromRadiance r = 15) \/
  (1 # 2 <= r < 2 /\ lightingScoreFromRadiance r = 35) \/
  (2 <= r < 10 /\ lightingScoreFromRadiance r = 65) \/
  (10 <= r /\ lightingScoreFromRadiance r = 85).
Proof.
  unfold lightingScoreFromRadiance.
  destruct (Math_max_spec 0 r) as [[M ->] | [M ->]].
  - destruct (ltb r (1 # 2)) eqn:A; [apply ltb_true in A; auto | apply ltb_false in A].
    destruct (ltb r 2) eqn:B; [apply ltb_true in B; auto | apply ltb_false in B].
    destruct (ltb r 10) eqn:C; [apply ltb_true in C | apply ltb_false in C]; auto 6.
  - left. split; [lra | reflexivity].
Qed.

Lemma lightingScore_values (r : number) :
  In (lightingScoreFromRadiance r) [15; 35; 65; 85].
Proof.
  destruct (lightingScore_cases r) as [[_ ->] | [[_ ->] | [[_ ->] | [_ ->]]]];
    simpl; auto.
Qed.

Lemma mul_0_3_bucket (l : number) :
  In l [15; 35; 65; 85] ->
  9 # 2 <= (lit_0_3 * Math_max 0 (Math_min 100 l))%js <= 51 # 2.
Proof.
  simpl. intros [<- | [<- | [<- | [<- | []]]]]; split; by_computation.
Qed.

Lemma pipeline_blend_range (c l : number) :
  In l [15; 35; 65; 85] ->
  9 # 2 <= (lit_0_7 * (100 - Math_max 0 (Math_min 100 c))
            + lit_0_3 * Math_max 0 (Math_min 100 l))%js <= 191 # 2.
Proof.
  intros Hl.
  pose proof (mul_0_7_range _ (sub_100_range _ (clamp_range c))) as [P1 P2].
  pose proof (mul_0_3_bucket l Hl) as [Q1 Q2].
  unfold add. split.
  - apply binary64_ge; [reflexivity | is_binary64 | lra].
  - apply binary64_le; [reflexivity | is_binary64 | lra].
Qed.

Lemma Math_round_Qeq (x y : number) :
  Math_round x == Math_round y -> Math_round x = Math_round y.
Proof.
  unfold Math_round. intros H.
  apply (proj1 (inject_Z_injective _ _)) in H. now rewrite H.
Qed.

Lemma on_grid_spec (P : Z -> Z -> bool) :
  on_grid P = true ->
  forall c l : Z, (0 <= c <= 100)%Z -> In l lighting_buckets -> P c l = true.
Proof.
  unfold on_grid. intros H c l Hc Hl.
  rewrite forallb_forall in H. specialize (H c).
  rewrite forallb_forall in H. apply H; [ | exact Hl].
  unfold csi_grid. apply in_map_iff. exists (Z.to_nat c). split; [lia | ].
  apply in_seq. lia.
Qed.

(** On the grid, the rounding [binary64] written above and the Standard
    Library's [SpecFloat] operations give the same two scores. *)
Lemma binary64_agrees_with_SpecFloat (c l : Z) :
  (0 <= c <= 100)%Z -> In l lighting_buckets ->
  vibeScore (inject_Z c) (inject_Z l)
    = Math_round (Binary64.to_Q (Binary64.vibe_blend c l)) /\
  socialWarmthProxy (inject_Z c) (inject_Z l)
    = Math_round (Binary64.to_Q (Binary64.warmth_blend c l)).
Proof.
  intros Hc Hl.
  assert (G : on_grid (fun c l =>
     Qeq_bool (vibeScore (inject_Z c) (inject_Z l))
              (Math_round (Binary64.to_Q (Binary64.vibe_blend c l)))
     && Qeq_bool (socialWarmthProxy (inject_Z c) (inject_Z l))
              (Math_round (Binary64.to_Q (Binary64.warmth_blend c l)))) = true)
    by (vm_compute; reflexivity).
  pose proof (on_grid_spec _ G c l Hc Hl) as E.
  apply andb_true_iff in E. destruct E as [E1 E2].
  apply Qeq_bool_eq in E1. apply Qeq_bool_eq in E2.
  unfold vibeScore, socialWarmthProxy in *.
  split; apply Math_round_Qeq; assumption.
Qed.

(* ================================================================== *)
(** ** Signal normalizer, score calculator, risk classifier *)

(** C6.  [lightingScoreFromRadiance] is defined on every finite radiance
    and has no error case: a negative radiance scores as radiance 0, the
    score follows the left-closed buckets [0,0.5) -> 15, [0.5,2) -> 35,
    [2,10) -> 65, [10,oo) -> 85, so it is one of 15, 35, 65, 85, and it
    never decreases when the radiance grows. *)
Theorem lightingScoreFromRadiance_buckets (r : number) :
  (r < 0 -> lightingScoreFromRadiance r = lightingScoreFromRadiance 0) /\
  (0 <= r < 1 # 2 -> lightingScoreFromRadiance r = 15) /\
  (1 # 2 <= r < 2 -> lightingScoreFromRadiance r = 35) /\
  (2 <= r < 10 -> lightingScoreFromRadiance r = 65) /\
  (10 <= r -> lightingScoreFromRadiance r = 85) /\
  In (lightingScoreFromRadiance r) [15; 35; 65; 85] /\
  (forall r' : number,
      r <= r' -> lightingScoreFromRadiance r <= lightingScoreFromRadiance r').
Proof.
  pose proof (lightingScore_cases r) as Hr.
  repeat split.
  - intros N. destruct Hr as [[_ ->] | [[[A _] _] | [[[A _] _] | [A _]]]];
      [reflexivity | lra | lra | lra].
  - intros [_ U]. destruct Hr as [[_ ->] | [[[A _] _] | [[[A _] _] | [A _]]]];
      [reflexivity | lra | lra | lra].
  - intros [L U]. destruct Hr as [[A _] | [[_ ->] | [[[A _] _] | [A _]]]];
      [lra | reflexivity | lra | lra].
  - intros [L U]. destruct Hr as [[A _] | [[[_ A] _] | [[_ ->] | [A _]]]];
      [lra | lra | reflexivity | lra].
  - intros L. destruct Hr as [[A _] | [[[_ A] _] | [[[_ A] _] | [_ ->]]]];
      [lra | lra | lra | reflexivity].
  - apply lightingScore_values.
  - intros r' Hrr'. pose proof (lightingScore_cases r') as Hr'.
    destruct Hr as [[A ->] | [[[A1 A2] ->] | [[[A1 A2] ->] | [A ->]]]];
      destruct Hr' as [[B ->] | [[[B1 B2] ->] | [[[B1 B2] ->] | [B ->]]]];
      solve [lra | apply Qle_bool_iff; reflexivity].
Qed.

Lemma lightingScoreFromRadiance_buckets_witness :
  lightingScoreFromRadiance (- (3)) = lightingScoreFromRadiance 0 /\
  lightingScoreFromRadiance (1 # 2) = 35 /\
  lightingScoreFromRadiance (1 # 2) <= lightingScoreFromRadiance (63 # 10).
Proof.
  split; [ | split].
  - apply (proj1 (lightingScoreFromRadiance_buckets (- (3)))). reflexivity.
  - apply (proj1 (proj2 (proj2 (lightingScoreFromRadiance_buckets (1 # 2))))).
    split; [apply Qle_bool_iff | ]; reflexivity.
  - apply (proj2 (proj2 (proj2 (proj2 (proj2 (proj2
             (lightingScoreFromRadiance_buckets (1 # 2)))))))).
    apply Qle_bool_iff. reflexivity.
Defined.

Lemma geb_inject_Z (v k : Z) : geb (inject_Z v) (inject_Z k) = (k <=? v)%Z.
Proof.
  unfold geb, Qle_bool, inject_Z. simpl. now rewrite !Z.mul_1_r.
Qed.

(** C8.  [riskLevelFromVibe] is defined on every number, never decreases
    in the ordering UNSAFE < CAUTION < SAFE when the score grows, and on
    the integers its bands are SAFE >= 65, CAUTION in [40,65), UNSAFE < 40:
    39 -> UNSAFE, 40 -> CAUTION, 64 -> CAUTION, 65 -> SAFE. *)
Theorem riskLevelFromVibe_monotone_bands :
  (forall v1 v2 : number,
      v1 <= v2 ->
      (risk_rank (riskLevelFromVibe v1) <= risk_rank (riskLevelFromVibe v2))%Z) /\
  (forall v : Z,
      ((65 <= v)%Z -> riskLevelFromVibe (inject_Z v) = SAFE) /\
      ((40 <= v < 65)%Z -> riskLevelFromVibe (inject_Z v) = CAUTION) /\
      ((v < 40)%Z -> riskLevelFromVibe (inject_Z v) = UNSAFE)) /\
  riskLevelFromVibe 39 = UNSAFE /\
  riskLevelFromVibe 40 = CAUTION /\
  riskLevelFromVibe 64 = CAUTION /\
  riskLevelFromVibe 65 = SAFE.
Proof.
  split; [ | split; [ | repeat split]].
  - intros v1 v2 H. unfold riskLevelFromVibe, geb.
    destruct (Qle_bool 65 v1) eqn:A1; destruct (Qle_bool 40 v1) eqn:B1;
      destruct (Qle_bool 65 v2) eqn:A2; destruct (Qle_bool 40 v2) eqn:B2;
      simpl; try lia;
      reflect_Qle_bool; lra.
  - intros v. unfold riskLevelFromVibe.
    change (65 : number) with (inject_Z 65). change (40 : number) with (inject_Z 40).
    rewrite !geb_inject_Z.
    destruct (Z.leb_spec 65 v); destruct (Z.leb_spec 40 v);
      repeat split; intros; solve [reflexivity | lia].
Qed.

Lemma riskLevelFromVibe_monotone_witness :
  (risk_rank (riskLevelFromVibe 39%Q) <= risk_rank (riskLevelFromVibe 40%Q))%Z /\
  riskLevelFromVibe (inject_Z 82) = SAFE.
Proof.
  split.
  - apply (proj1 riskLevelFromVibe_monotone_bands). apply Qle_bool_iff. reflexivity.
  - apply (proj1 (proj1 (proj2 riskLevelFromVibe_monotone_bands) 82%Z)). lia.
Defined.

(** On the grid [vibeScore] is round-half-up of the exact blend. *)
Lemma vibeScore_exact_on_grid (c l : Z) :
  (0 <= c <= 100)%Z -> In l lighting_buckets ->
  vibeScore (inject_Z c) (inject_Z l)
    = inject_Z (vibe_exact (inject_Z c) (inject_Z l)).
Proof.
  intros Hc Hl.
  assert (G : on_grid (fun c l =>
     Qeq_bool (vibeScore (inject_Z c) (inject_Z l))
              (inject_Z (vibe_exact (inject_Z c) (inject_Z l)))) = true)
    by (vm_compute; reflexivity).
  pose proof (on_grid_spec _ G c l Hc Hl) as E.
  apply Qeq_bool_eq in E. unfold vibeScore, Math_round in *.
  apply (proj1 (inject_Z_injective _ _)) in E. now rewrite E.
Qed.

(** C7, as stated, fails: with csi = 100 and lighting = 85 the exact blend
    0.7 * 85 + 0.3 * 0 is the tie 59.5, which round-half-up takes to 60,
    but the binary64 product 0.7 * 85 is 59.49999999999999 and
    [socialWarmthProxy] returns 59.  The Standard Library's binary64
    operations give the same 59. *)
Lemma socialWarmthProxy_misses_tie :
  socialWarmthProxy 100 85 = 59 /\
  warmth_exact 100 85 = 60%Z /\
  Math_round (Binary64.to_Q (Binary64.warmth_blend 100 85)) = 59.
Proof. vm_compute. repeat split. Qed.

(** C7 (amended).  For every pair of finite inputs, also outside
    [0,100], [vibeScore] and [socialWarmthProxy] return integers of
    [0,100]; each clamps its two inputs into [0,100] independently and
    applies [Math.round] (a tie going up) to the blend as binary64
    arithmetic evaluates it, every product, difference and sum rounded to
    the nearest binary64 value.  For [vibeScore] on an integer csi of
    [0,100] and a lighting bucket this is round-half-up of the exact
    blend; in particular vibeScore(80, 15) = 19. *)
Theorem scores_integer_in_range (csi lighting : number) :
  (exists v : Z, vibeScore csi lighting = inject_Z v /\ (0 <= v <= 100)%Z) /\
  (exists w : Z, socialWarmthProxy csi lighting = inject_Z w /\ (0 <= w <= 100)%Z) /\
  vibeScore csi lighting
    = Math_round (lit_0_7 * (100 - Math_max 0 (Math_min 100 csi))
                  + lit_0_3 * Math_max 0 (Math_min 100 lighting))%js /\
  socialWarmthProxy csi lighting
    = Math_round (lit_0_7 * Math_max 0 (Math_min 100 lighting)
                  + lit_0_3 * (100 - Math_max 0 (Math_min 100 csi)))%js /\
  (forall c l : Z,
      (0 <= c <= 100)%Z -> In l lighting_buckets ->
      vibeScore (inject_Z c) (inject_Z l)
        = inject_Z (vibe_exact (inject_Z c) (inject_Z l))) /\
  vibeScore 80 15 = 19 /\
  vibe_exact 80 15 = 19%Z.
Proof.
  split; [ | split; [ | split; [ | split; [ | split; [ | split]]]]].
  - destruct (vibe_blend_range _ _ (clamp_range csi) (clamp_range lighting)) as [L U].
    unfold vibeScore. apply Math_round_range.
    + change (inject_Z 0) with 0. lra.
    + change (inject_Z 100) with 100. lra.
  - destruct (warmth_blend_range _ _ (clamp_range csi) (clamp_range lighting)) as [L U].
    unfold socialWarmthProxy. apply Math_round_range.
    + change (inject_Z 0) with 0. lra.
    + change (inject_Z 100) with 100. lra.
  - reflexivity.
  - reflexivity.
  - exact vibeScore_exact_on_grid.
  - vm_compute. reflexivity.
  - vm_compute. reflexivity.
Qed.

Lemma scores_integer_in_range_witness :
  vibeScore (inject_Z 20) (inject_Z 85)
    = inject_Z (vibe_exact (inject_Z 20) (inject_Z 85)).
Proof.
  apply (proj1 (proj2 (proj2 (proj2 (proj2 (scores_integer_in_range 0 0)))))).
  - lia.
  - simpl. auto.
Defined.

(** C10.  For every finite csi, in particular every csi of [0,100], and
    every finite radiance the composition
    vibeScore(csi, lightingScoreFromRadiance(radiance)) is an integer of
    [5,96]: 5 is reached at csi = 100 in the darkest bucket, 96 at csi = 0
    in the brightest one, and the three risk bands are all reached. *)
Theorem pipeline_vibe_between_5_and_96 :
  (forall csi radiance : number,
      exists v : Z,
        vibeScore csi (lightingScoreFromRadiance radiance) = inject_Z v /\
        (5 <= v <= 96)%Z) /\
  vibeScore 100 (lightingScoreFromRadiance 0) = 5 /\
  vibeScore 0 (lightingScoreFromRadiance 10) = 96 /\
  riskLevelFromVibe (vibeScore 100 (lightingScoreFromRadiance 0)) = UNSAFE /\
  riskLevelFromVibe (vibeScore 50 (lightingScoreFromRadiance 1)) = CAUTION /\
  riskLevelFromVibe (vibeScore 0 (lightingScoreFromRadiance 10)) = SAFE.
Proof.
  split; [ | vm_compute; repeat split].
  intros csi radiance.
  destruct (pipeline_blend_range csi _ (lightingScore_values radiance)) as [L U].
  unfold vibeScore. apply Math_round_range.
  - change (inject_Z 5) with 5. lra.
  - change (inject_Z 96) with 96. lra.
Qed.

(* ================================================================== *)
(** ** Result reconciler *)

(** C9.  [assembleFinalResult] hands classification, confidence and
    rationale through from [modelOut] unchanged, copies vibe_score,
    lighting_score, crime_baseline and social_warmth from its other
    arguments, always sets safe_haven_nearby to false, and, being a total
    function into [GlowPathResult], cannot fail. *)
Theorem assembleFinalResult_frame (params : AssembleParams) :
  classification (assembleFinalResult params) = mo_classification (p_modelOut params) /\
  confidence (assembleFinalResult params) = mo_confidence (p_modelOut params) /\
  rationale (assembleFinalResult params) = mo_rationale (p_modelOut params) /\
  vibe_score (assembleFinalResult params) = p_vibe_score params /\
  lighting_score (assembleFinalResult params) = p_lighting_score params /\
  crime_baseline (assembleFinalResult params) = p_crime_baseline params /\
  social_warmth (assembleFinalResult params) = p_social_warmth params /\
  safe_haven_nearby (assembleFinalResult params) = false.
Proof. destruct params as [v l c w [r k q t]]. cbn. repeat split. Qed.

(** What [assess] returns when it returns. *)
Lemma assess_inversion fetch classify canRun found crime radianceOverride r :
  assess fetch classify canRun found crime radianceOverride = Ok r ->
  exists csi radiance modelOut,
    fetch crime = Ok csi /\
    radianceOverride = Finite radiance /\
    classify {| a_csi := csi; a_radiance := radiance;
                a_vibe_score := vibeScore csi (lightingScoreFromRadiance radiance);
                a_lighting_score := lightingScoreFromRadiance radiance |} = Ok modelOut /\
    r = assembleFinalResult
          {| p_vibe_score := vibeScore csi (lightingScoreFromRadiance radiance);
             p_lighting_score := lightingScoreFromRadiance radiance;
             p_crime_baseline := Math_round csi;
             p_social_warmth := socialWarmthProxy csi (lightingScoreFromRadiance radiance);
             p_modelOut :=
               {| mo_risk_level :=
                    riskLevelFromVibe (vibeScore csi (lightingScoreFromRadiance radiance));
                  mo_classification := mo_classification modelOut;
                  mo_confidence := mo_confidence modelOut;
                  mo_rationale := mo_rationale modelOut |} |}.
Proof.
  unfold assess. destruct canRun; [ | discriminate]. cbn [negb].
  destruct found as [[dest | ] | e]; cbn [bind]; try discriminate.
  destruct (fetch crime) as [csi | e]; cbn [bind]; try discriminate.
  destruct radianceOverride as [radiance | | | ]; try discriminate.
  destruct (classify _) as [modelOut | e] eqn:E; cbn [bind]; try discriminate.
  intros H. injection H as <-. exists csi, radiance, modelOut. repeat split. exact E.
Qed.

(** C1, as stated, fails: [assembleFinalResult] recomputes nothing.  With
    vibe_score 90 and a [modelOut] whose risk_level is UNSAFE it returns
    UNSAFE, while riskLevelFromVibe(90) is SAFE. *)
Lemma assembleFinalResult_forwards_risk_level :
  risk_level
    (assembleFinalResult
       {| p_vibe_score := 90; p_lighting_score := 85; p_crime_baseline := 0;
          p_social_warmth := 90;
          p_modelOut := {| mo_risk_level := UNSAFE; mo_classification := UNCERTAIN;
                           mo_confidence := 1 # 2; mo_rationale := "" |} |})
    = UNSAFE /\
  riskLevelFromVibe 90 = SAFE.
Proof. split; reflexivity. Qed.

(** C1 (amended).  Every [GlowPathResult] that [assess] produces has
    risk_level equal to riskLevelFromVibe(vibe_score), whatever risk_level
    the classifier returned: [assess] recomputes the level and substitutes
    it in [modelOut] before it calls [assembleFinalResult], and it does
    produce a result whenever the place is found, the crime query and the
    classifier succeed and the radiance is finite.  [assembleFinalResult]
    itself copies [params.modelOut.risk_level]. *)
Theorem assess_risk_level_deterministic :
  (forall fetch classify canRun found crime radianceOverride r,
      assess fetch classify canRun found crime radianceOverride = Ok r ->
      risk_level r = riskLevelFromVibe (vibe_score r)) /\
  (forall fetch classify dest crime csi radiance modelOut,
      fetch crime = Ok csi ->
      classify {| a_csi := csi; a_radiance := radiance;
                  a_vibe_score := vibeScore csi (lightingScoreFromRadiance radiance);
                  a_lighting_score := lightingScoreFromRadiance radiance |} = Ok modelOut ->
      exists r,
        assess fetch classify true (Ok (Some dest)) crime (Finite radiance) = Ok r /\
        vibe_score r = vibeScore csi (lightingScoreFromRadiance radiance) /\
        risk_level r = riskLevelFromVibe (vibe_score r) /\
        classification r = mo_classification modelOut) /\
  (forall params,
      risk_level (assembleFinalResult params) = mo_risk_level (p_modelOut params)).
Proof.
  split; [ | split].
  - intros fetch classify canRun found crime radianceOverride r H.
    apply assess_inversion in H.
    destruct H as (csi & radiance & modelOut & _ & _ & _ & ->). reflexivity.
  - intros fetch classify dest crime csi radiance modelOut Hf Hc.
    unfold assess. cbn [negb bind]. rewrite Hf. cbn [bind]. rewrite Hc. cbn [bind].
    eexists. split; [reflexivity | ]. repeat split.
  - intros params. reflexivity.
Qed.

Lemma assess_risk_level_witness :
  exists r,
    assess LibBackend.fetchCrimeoMeterCsi answers_SAFE true (Ok (Some somewhere))
           (crime_answer 80) (Finite (1 # 10)) = Ok r /\
    vibe_score r = 19 /\
    risk_level r = UNSAFE.
Proof.
  destruct (proj1 (proj2 assess_risk_level_deterministic)
              LibBackend.fetchCrimeoMeterCsi answers_SAFE somewhere
              (crime_answer 80) 80 (1 # 10)
              {| mo_risk_level := SAFE; mo_classification := UNCERTAIN;
                 mo_confidence := 1 # 2; mo_rationale := "CSI high, lighting low" |}
              eq_refl eq_refl) as (r & Hr & Hv & Hl & _).
  exists r. split; [exact Hr | ].
  assert (V : vibe_score r = 19) by (rewrite Hv; vm_compute; reflexivity).
  split; [exact V | ]. rewrite Hl, V. reflexivity.
Defined.

(** C5: the backend versions of [fetchCrimeoMeterCsi] return the index as
    received, and [assess] stores [Math.round(csi)]: an upstream value of
    150 gives crime_baseline 150. *)
Theorem backend_crime_baseline_not_clamped :
  exists r,
    assess LibBackend.fetchCrimeoMeterCsi answers_SAFE true (Ok (Some somewhere))
           (crime_answer 150) (Finite (63 # 10)) = Ok r /\
    crime_baseline r = 150 /\
    vibe_score r = 20.
Proof. eexists. split; [reflexivity | ]. vm_compute. split; reflexivity. Qed.

(** The direct version clamps in the fetch, so there crime_baseline stays
    in [0,100] and no finite index is rejected. *)
Lemma direct_fetch_clamps (status : Z) (csi : number) :
  exists c,
    LibDirect.fetchCrimeoMeterCsi
      {| csi_ok := true; csi_status := status; csi_number := Finite csi |} = Ok c /\
    0 <= c <= 100.
Proof.
  eexists. split; [reflexivity | ]. apply clamp_range.
Qed.

(** With the direct [fetchCrimeoMeterCsi], which clamps, the crime
    baseline of every result of [assess] is an integer of [0,100]. *)
Lemma direct_crime_baseline_in_range classify canRun found crime radianceOverride r :
  assess LibDirect.fetchCrimeoMeterCsi classify canRun found crime radianceOverride = Ok r ->
  exists z : Z, crime_baseline r = inject_Z z /\ (0 <= z <= 100)%Z.
Proof.
  intros H. apply assess_inversion in H.
  destruct H as (csi & radiance & modelOut & Hf & _ & _ & ->). cbn.
  unfold LibDirect.fetchCrimeoMeterCsi in Hf.
  destruct (negb (csi_ok crime)); [discriminate | ].
  destruct (csi_number crime) as [q | | | ]; try discriminate.
  injection Hf as <-. destruct (clamp_range q) as [L U].
  apply Math_round_range.
  - change (inject_Z 0) with 0. lra.
  - change (inject_Z 100) with 100. lra.
Qed.

Lemma backend_fetch_accepts_every_finite (status : Z) (csi : number) :
  LibBackend.fetchCrimeoMeterCsi
    {| csi_ok := true; csi_status := status; csi_number := Finite csi |} = Ok csi.
Proof. reflexivity. Qed.

(* ================================================================== *)
(** ** Mismatch classifier *)

Lemma z_enum_riskLevels (v : option json) (r : RiskLevel) :
  LibZod.z_enum LibZod.riskLevels v = Some r ->
  exists s, v = Some (JStr s) /\ In s ["SAFE"; "CAUTION"; "UNSAFE"]%string.
Proof.
  destruct v as [[ | | | s | | ] | ]; try discriminate. cbn. intros H. exists s.
  split; [reflexivity | ].
  repeat match type of H with
         | context [String.eqb s ?k] =>
             destruct (String.eqb_spec s k) as [-> | _]; [simpl; tauto | ]
         end.
  discriminate.
Qed.

Lemma z_enum_classifications (v : option json) (c : Classification) :
  LibZod.z_enum LibZod.classifications v = Some c ->
  exists s, v = Some (JStr s) /\
    In s ["SAFE"; "UNSAFE"; "SOCIAL_BALANCED"; "INFRA_MISMATCH"; "UNCERTAIN"]%string.
Proof.
  destruct v as [[ | | | s | | ] | ]; try discriminate. cbn. intros H. exists s.
  split; [reflexivity | ].
  repeat match type of H with
         | context [String.eqb s ?k] =>
             destruct (String.eqb_spec s k) as [-> | _]; [simpl; tauto | ]
         end.
  discriminate.
Qed.

Lemma z_enum_member {A : Type} (members : list (string * A)) (s : string) :
  In s (map fst members) -> exists a, LibZod.z_enum members (Some (JStr s)) = Some a.
Proof.
  cbn. induction members as [ | [k a] rest IH]; [intros [] | ].
  cbn. intros [-> | H].
  - rewrite String.eqb_refl. eauto.
  - destruct (String.eqb s k); eauto.
Qed.

Lemma z_number_min_max_spec (lo hi : Q) (v : option json) (q : number) :
  LibZod.z_number_min_max lo hi v = Some q <->
  v = Some (JNum (Finite q)) /\ lo <= q <= hi.
Proof.
  unfold LibZod.z_number_min_max.
  destruct v as [[ | | [x | | | ] | | | ] | ];
    try (split; [discriminate | intros [H _]; discriminate]).
  destruct (Qle_bool lo x) eqn:L; destruct (Qle_bool x hi) eqn:U; cbn;
    (split; [intros H; try discriminate; injection H as <- | intros [H [A B]]; injection H as ->]);
    reflect_Qle_bool; auto; lra.
Qed.

Lemma z_string_max_spec (n : nat) (v : option json) (s : string) :
  LibZod.z_string_max n v = Some s <->
  v = Some (JStr s) /\ (String.length s <= n)%nat.
Proof.
  unfold LibZod.z_string_max.
  destruct v as [[ | | | t | | ] | ];
    try (split; [discriminate | intros [H _]; discriminate]).
  destruct (Nat.leb_spec (String.length t) n).
  - split; [intros E; injection E as <-; auto | intros [E _]; injection E as ->; reflexivity].
  - split; [discriminate | intros [E L]; injection E as ->; lia].
Qed.

(** A value that [outputSchema.parse] accepts conforms to the schema, and
    the object returned holds the very values received. *)
Lemma outputSchema_parse_Ok (v : json) (m : ModelOut) :
  LibZod.outputSchema_parse v = Ok m ->
  conforms v /\
  LibZod.z_enum LibZod.riskLevels (prop v "risk_level") = Some (mo_risk_level m) /\
  LibZod.z_enum LibZod.classifications (prop v "classification")
    = Some (mo_classification m) /\
  prop v "confidence" = Some (JNum (Finite (mo_confidence m))) /\
  prop v "rationale" = Some (JStr (mo_rationale m)).
Proof.
  unfold LibZod.outputSchema_parse.
  destruct v as [ | | | | | fields]; try discriminate.
  destruct (LibZod.z_enum LibZod.riskLevels _) as [r | ] eqn:Er; try discriminate.
  destruct (LibZod.z_enum LibZod.classifications _) as [c | ] eqn:Ec; try discriminate.
  destruct (LibZod.z_number_min_max 0 1 _) as [q | ] eqn:Eq; try discriminate.
  destruct (LibZod.z_string_max 240 _) as [s | ] eqn:Es; try discriminate.
  intros H. injection H as <-. cbn [mo_risk_level mo_classification mo_confidence mo_rationale].
  apply z_number_min_max_spec in Eq. destruct Eq as [Eq Rq].
  apply z_string_max_spec in Es. destruct Es as [Es Ls].
  repeat split; try assumption.
  destruct (z_enum_riskLevels _ _ Er) as (sr & Hr & Ir).
  destruct (z_enum_classifications _ _ Ec) as (sc & Hc & Ic).
  exists fields, sr, sc, s, q. cbn [prop] in *. repeat split; assumption || apply Rq.
Qed.

Lemma outputSchema_parse_conforms (v : json) :
  conforms v -> exists m, LibZod.outputSchema_parse v = Ok m.
Proof.
  intros (fields & r & c & s & q & -> & Hr & Ir & Hc & Ic & Hq & Rq & Hs & Ls).
  unfold LibZod.outputSchema_parse. cbn [prop]. rewrite Hr, Hc, Hq, Hs.
  destruct (z_enum_member LibZod.riskLevels r Ir) as [r' ->].
  destruct (z_enum_member LibZod.classifications c Ic) as [c' ->].
  assert (Eq : LibZod.z_number_min_max 0 1 (Some (JNum (Finite q))) = Some q)
    by (apply z_number_min_max_spec; auto).
  assert (Es : LibZod.z_string_max 240 (Some (JStr s)) = Some s)
    by (apply z_string_max_spec; auto).
  rewrite Eq, Es. eauto.
Qed.

Lemma invalid_answer_violates_schema : ~ conforms invalid_answer.
Proof.
  intros (fields & r & c & s & q & E & Hr & Ir & _).
  injection E as <-. cbn in Hr. injection Hr as <-.
  cbn in Ir. intuition discriminate.
Qed.

(** C2: the backend-proxy [geminiClassify] does not validate.  On the
    answer with risk_level "MAYBE" and confidence 1.5, on which the
    [geminiClassify] of [lib.ts] throws the schema validation error, it
    returns the invalid values as received; on an empty object, on which
    [lib.ts] throws as well, it substitutes the confidence 0.55 and the
    empty rationale.  No choice of the runtime conversions makes it
    throw. *)
Theorem proxy_geminiClassify_accepts_invalid :
  ~ conforms invalid_answer /\
  ~ conforms (JObj []) /\
  LibZod.geminiClassify (Some invalid_answer) = Throw ZodError /\
  LibZod.geminiClassify (Some (JObj [])) = Throw ZodError /\
  (forall s2n n2s,
      LibProxy.geminiClassify s2n n2s (ok_response invalid_answer)
      = Ok {| LibProxy.raw_risk_level := Some (JStr "MAYBE");
              LibProxy.raw_classification := Some (JStr "SAFE");
              LibProxy.raw_confidence := Finite (3 # 2);
              LibProxy.raw_rationale := "dark street" |}) /\
  (forall s2n n2s,
      LibProxy.geminiClassify s2n n2s (ok_response (JObj []))
      = Ok {| LibProxy.raw_risk_level := None;
              LibProxy.raw_classification := None;
              LibProxy.raw_confidence := Finite lit_0_55;
              LibProxy.raw_rationale := "" |}).
Proof.
  split; [exact invalid_answer_violates_schema | ].
  split; [ | split; [reflexivity | split; [reflexivity | split; intros; reflexivity]]].
  intros (fields & r & c & s & q & E & Hr & _). injection E as <-. discriminate.
Qed.



(* ================================================================== *)
(** ** Alternatives ranker *)

Lemma insert_by_perm {A : Type} (le : A -> A -> bool) (x : A) (l : list A) :
  Permutation (insert_by le x l) (x :: l).
Proof.
  induction l as [ | y l IH]; cbn; [reflexivity | ].
  destruct (le x y); [reflexivity | ].
  rewrite IH. apply perm_swap.
Qed.

Lemma sort_by_perm' {A : Type} (le : A -> A -> bool) (l : list A) :
  Permutation (sort_by le l) l.
Proof.
  induction l as [ | x l IH]; cbn; [reflexivity | ].
  rewrite insert_by_perm. now constructor.
Qed.

Section SortByFacts.

Context {A : Type}.
Variable le : A -> A -> bool.

Lemma sort_by_perm (l : list A) : Permutation (sort_by le l) l.
Proof. apply sort_by_perm'. Qed.

(** Only the comparisons between elements of the list matter. *)
Lemma insert_by_ext (le' : A -> A -> bool) (x : A) (l : list A) :
  (forall y, In y l -> le x y = le' x y) -> insert_by le x l = insert_by le' x l.
Proof.
  induction l as [ | y l IH]; cbn; [reflexivity | ]. intros H.
  rewrite <- (H y) by auto. destruct (le x y); [reflexivity | ].
  f_equal. apply IH. auto.
Qed.

Lemma sort_by_ext (le' : A -> A -> bool) (l : list A) :
  (forall x y, In x l -> In y l -> le x y = le' x y) -> sort_by le l = sort_by le' l.
Proof.
  induction l as [ | x l IH]; cbn; [reflexivity | ]. intros H.
  rewrite IH by auto. apply insert_by_ext. intros y Hy. apply H; [auto | ].
  right. apply (Permutation_in _ (sort_by_perm' le' l) Hy).
Qed.

End SortByFacts.

(** With a total and transitive order the result is sorted. *)
Section SortBySorted.

Context {A : Type}.
Variable le : A -> A -> bool.
Hypothesis le_total : forall a b, le a b = true \/ le b a = true.
Hypothesis le_trans : forall a b c, le a b = true -> le b c = true -> le a c = true.

Let leP (a b : A) : Prop := le a b = true.

Lemma insert_by_sorted (x : A) (l : list A) :
  StronglySorted leP l -> StronglySorted leP (insert_by le x l).
Proof.
  induction l as [ | y l IH]; cbn; intros S.
  - constructor; constructor.
  - inversion S as [ | y' l' Sl Fy]; subst.
    destruct (le x y) eqn:E.
    + constructor; [exact S | ]. constructor; [exact E | ].
      eapply Forall_impl; [ | exact Fy]. intros z Hz. exact (le_trans _ _ _ E Hz).
    + constructor; [apply IH; exact Sl | ].
      assert (Hyx : leP y x) by (destruct (le_total x y); [congruence | assumption]).
      eapply Permutation_Forall; [symmetry; apply insert_by_perm | ].
      constructor; assumption.
Qed.

Lemma sort_by_sorted (l : list A) : StronglySorted leP (sort_by le l).
Proof.
  induction l as [ | x l IH]; cbn; [constructor | ]. now apply insert_by_sorted.
Qed.

End SortBySorted.

(** Stability: a class of elements that the order never reverses keeps
    its input order. *)
Section SortByStable.

Context {A : Type}.
Variable le : A -> A -> bool.
Variable P : A -> bool.
Hypothesis class_never_passed :
  forall x y, le x y = false -> P x = true -> P y = false.

Lemma insert_by_filter (x : A) (l : list A) :
  filter P (insert_by le x l) = if P x then x :: filter P l else filter P l.
Proof.
  induction l as [ | y l IH]; cbn; [reflexivity | ].
  destruct (le x y) eqn:E; cbn; [reflexivity | ].
  rewrite IH. destruct (P x) eqn:Px; [ | reflexivity].
  now rewrite (class_never_passed x y E Px).
Qed.

Lemma sort_by_filter (l : list A) : filter P (sort_by le l) = filter P l.
Proof.
  induction l as [ | x l IH]; cbn; [reflexivity | ].
  rewrite insert_by_filter, IH. reflexivity.
Qed.

End SortByStable.

Lemma Array_sort_sort_by {A : Type} (cmp : A -> A -> number) (l : list A) :
  Array_sort cmp l = sort_by (fun a b => Qle_bool (cmp a b) 0) l.
Proof.
  induction l as [ | x l IH]; cbn; [reflexivity | ]. rewrite IH.
  generalize (sort_by (fun a b => Qle_bool (cmp a b) 0) l). intros s.
  induction s as [ | y s IHs]; cbn; [reflexivity | ]. now rewrite IHs.
Qed.

Lemma Qle_bool_total (a b : Q) : Qle_bool a b = true \/ Qle_bool b a = true.
Proof.
  destruct (Qle_bool a b) eqn:E; [auto | right].
  apply Qle_bool_iff. apply Qle_bool_false in E. lra.
Qed.

Lemma keyLeb_total (a b : PlaceCandidate) : keyLeb a b = true \/ keyLeb b a = true.
Proof.
  unfold keyLeb. destruct (isOpen a), (isOpen b); cbn; auto using Qle_bool_total.
Qed.

Lemma keyLeb_trans (a b c : PlaceCandidate) :
  keyLeb a b = true -> keyLeb b c = true -> keyLeb a c = true.
Proof.
  unfold keyLeb. destruct (isOpen a), (isOpen b), (isOpen c); cbn;
    try discriminate; try reflexivity;
    rewrite !Qle_bool_iff; intros; lra.
Qed.

Lemma keyLeb_ranksBefore (a b : PlaceCandidate) :
  keyLeb a b = true <-> ranksBefore a b.
Proof.
  unfold keyLeb, ranksBefore. destruct (isOpen a), (isOpen b); cbn;
    rewrite ?Qle_bool_iff; intuition discriminate.
Qed.

Lemma sameKeys_never_passed (k x y : PlaceCandidate) :
  keyLeb x y = false -> sameKeys k x = true -> sameKeys k y = false.
Proof.
  unfold keyLeb, sameKeys. intros H Kx.
  apply andb_true_iff in Kx. destruct Kx as [Ox Vx].
  apply Bool.eqb_prop in Ox. apply Qeq_bool_iff in Vx.
  destruct (Bool.eqb (isOpen k) (isOpen y)) eqn:Oy; [ | reflexivity].
  apply Bool.eqb_prop in Oy. cbn.
  destruct (Qeq_bool (vibeOrZero k) (vibeOrZero y)) eqn:Vy; [ | reflexivity].
  apply Qeq_bool_iff in Vy.
  rewrite <- Ox, <- Oy, Bool.eqb_reflx in H.
  apply Qle_bool_false in H. lra.
Qed.

(** The smallest positive binary64 number. *)
Lemma smallest_double_representable : representable (2 ^ (-1074)).
Proof. exists 1%Z. vm_compute. reflexivity. Qed.

Lemma double_positive (x : Q) : double x -> 0 < x -> 2 ^ (-1074) <= x.
Proof.
  intros [M HM] Hx.
  remember (2 ^ (-1074)) as u eqn:Eu.
  assert (P : 0 < u) by (subst u; apply pow2_pos).
  clear Eu.
  rewrite HM in Hx |- *.
  assert (HMpos : (0 < M)%Z).
  { destruct (Z_lt_le_dec 0 M) as [ | N]; [assumption | exfalso].
    rewrite Zle_Qle in N. change (inject_Z 0) with 0 in N. nra. }
  assert (H1 : 1 <= inject_Z M) by (rewrite <- (Zle_Qle 1); lia).
  nra.
Qed.

(** A binary64 difference has the sign of the exact difference. *)
Lemma binary64_sign (x : Q) : double x -> Qle_bool (binary64 x) 0 = Qle_bool x 0.
Proof.
  intros D. unfold binary64. destruct (Qcompare x 0) eqn:C.
  - apply Qeq_alt in C. symmetry. apply Qle_bool_iff. lra.
  - rewrite <- Qlt_alt in C.
    assert (P : 0 <= round_pos (- x)) by (apply round_pos_nonneg; lra).
    transitivity true; [ | symmetry]; apply Qle_bool_iff; lra.
  - rewrite <- Qgt_alt in C.
    pose proof (double_positive x D C) as L.
    pose proof (round_pos_ge x _ (pow2_pos _) L smallest_double_representable) as R.
    pose proof (pow2_pos (-1074)) as U.
    destruct (Qle_bool (round_pos x) 0) eqn:E1; destruct (Qle_bool x 0) eqn:E2;
      try reflexivity;
      reflect_Qle_bool; lra.
Qed.

Lemma double_sub (a b : Q) : double a -> double b -> double (a - b).
Proof.
  intros [M HM] [N HN]. exists (M - N)%Z.
  rewrite HM, HN. unfold Zminus. rewrite inject_Z_plus, inject_Z_opp. ring.
Qed.

Lemma openFlag_isOpen (p : PlaceCandidate) :
  openFlag p = if isOpen p then 1 else 0.
Proof.
  unfold openFlag, isOpen. destruct (pc_open_at_time p) as [[ | ] | ]; reflexivity.
Qed.

Lemma flag_differences :
  Qle_bool (0 - 1)%js 0 = true /\ Qle_bool (1 - 0)%js 0 = false.
Proof. split; vm_compute; reflexivity. Qed.

(** On binary64 scores the comparator of [findAlternatives] decides the
    order of the two keys. *)
Lemma compareAlternatives_keyLeb (a b : PlaceCandidate) :
  double (vibeOrZero a) -> double (vibeOrZero b) ->
  Qle_bool (compareAlternatives a b) 0 = keyLeb a b.
Proof.
  intros Da Db. destruct flag_differences as [F01 F10].
  assert (V : Qle_bool (vibeOrZero b - vibeOrZero a)%js 0
              = Qle_bool (vibeOrZero b) (vibeOrZero a)).
  { unfold sub. rewrite binary64_sign by (apply double_sub; assumption).
    destruct (Qle_bool (vibeOrZero b - vibeOrZero a) 0) eqn:E1;
      destruct (Qle_bool (vibeOrZero b) (vibeOrZero a)) eqn:E2; try reflexivity;
      reflect_Qle_bool; lra. }
  unfold compareAlternatives, keyLeb. rewrite !openFlag_isOpen.
  destruct (isOpen a), (isOpen b); cbv beta iota zeta.
  - change (Qeq_bool 1 1) with true. exact V.
  - change (Qeq_bool 0 1) with false. exact F01.
  - change (Qeq_bool 1 0) with false. exact F10.
  - change (Qeq_bool 0 0) with true. exact V.
Qed.

Lemma notClosed_spec (p : PlaceCandidate) :
  notClosed p = true <-> pc_open_at_time p <> Some false.
Proof.
  unfold notClosed. destruct (pc_open_at_time p) as [[ | ] | ];
    split; congruence.
Qed.

Lemma StronglySorted_impl {A : Type} (R1 R2 : A -> A -> Prop) (l : list A) :
  (forall a b, R1 a b -> R2 a b) -> StronglySorted R1 l -> StronglySorted R2 l.
Proof.
  intros H S. induction S as [ | x l S IH F]; constructor; [exact IH | ].
  eapply Forall_impl; [ | exact F]. intros y. apply H.
Qed.

(** The sorted survivors, before the cut. *)
Lemma sorted_survivors (scored : list PlaceCandidate) :
  Forall (fun p => double (vibeOrZero p)) scored ->
  Array_sort compareAlternatives (filter notClosed scored)
  = sort_by keyLeb (filter notClosed scored).
Proof.
  intros D. rewrite Array_sort_sort_by. apply sort_by_ext.
  intros x y Hx Hy. rewrite Forall_forall in D.
  apply filter_In in Hx. apply filter_In in Hy.
  apply compareAlternatives_keyLeb; apply D; tauto.
Qed.

(** The last three steps alone, in terms of the keys the comparator
    reads: on scored candidates (scores being binary64 numbers) the filter,
    the sort and the cut keep the candidates that are not closed, order
    them by [keyLeb], stably, and return the first 5. *)
Lemma rankAlternatives_spec (scored : list PlaceCandidate) :
  Forall (fun p => double (vibeOrZero p)) scored ->
  exists sorted : list PlaceCandidate,
    rankAlternatives scored = firstn 5 sorted /\
    (List.length (rankAlternatives scored) <= 5)%nat /\
    Permutation sorted (filter notClosed scored) /\
    (forall p, In p sorted <-> In p scored /\ pc_open_at_time p <> Some false) /\
    StronglySorted ranksBefore sorted /\
    (forall k, filter (sameKeys k) sorted
               = filter (sameKeys k) (filter notClosed scored)).
Proof.
  intros D. exists (sort_by keyLeb (filter notClosed scored)).
  assert (R : rankAlternatives scored
              = firstn 5 (sort_by keyLeb (filter notClosed scored))).
  { unfold rankAlternatives. now rewrite sorted_survivors. }
  split; [exact R | ]. split; [rewrite R; apply firstn_le_length | ].
  split; [apply sort_by_perm | ]. split; [ | split].
  - intros p. rewrite <- notClosed_spec, <- filter_In. split; intros H.
    + exact (Permutation_in _ (sort_by_perm keyLeb _) H).
    + exact (Permutation_in _ (Permutation_sym (sort_by_perm keyLeb _)) H).
  - apply (StronglySorted_impl (fun a b => keyLeb a b = true)).
    + intros a b. apply keyLeb_ranksBefore.
    + apply (sort_by_sorted keyLeb keyLeb_total keyLeb_trans).
  - intros k. apply sort_by_filter. intros x y. apply sameKeys_never_passed.
Qed.

Lemma integer_is_double (z : Z) : double (inject_Z z).
Proof.
  exists (z * 2 ^ 1074)%Z. rewrite inject_Z_mult, <- Qmult_assoc.
  rewrite <- (pow2_Z 1074) by lia. rewrite <- pow2_add.
  change (2 ^ (1074 + -1074)) with 1. ring.
Qed.

(** C3, as stated, fails: the ranker does not return [C, B]. *)
Lemma ranking_scenario_is_not_C_B :
  rankAlternatives [candA; candB; candC] <> [candC; candB].
Proof.
  intros H. apply (f_equal (map pc_name)) in H. vm_compute in H. discriminate.
Qed.

(** C3 (amended).  On [A(open_at_time=false, vibe_score=90),
    B(open_at_time=true, vibe_score=50), C(open_at_time unknown,
    vibe_score=80)] the filter-then-sort of the ranker returns exactly
    [B, C]: A is dropped as closed, and B, which is open, stands before C,
    whose hours are unknown, although C has the higher score. *)
Theorem ranking_scenario :
  rankAlternatives [candA; candB; candC] = [candB; candC].
Proof. vm_compute. reflexivity. Qed.

(** Candidates that leave the scoring loop carry binary64 scores, so the
    ranking theorem applies to every run of [findAlternatives]. *)
Lemma scoreAll_double fetch crimeOf lighting shortlist scored :
  scoreAll fetch crimeOf lighting shortlist = Ok scored ->
  Forall (fun p => double (vibeOrZero p)) scored.
Proof.
  revert scored. induction shortlist as [ | c rest IH]; cbn; intros scored H.
  - injection H as <-. constructor.
  - destruct (fetch (crimeOf c)) as [csi | e]; cbn in H; [ | discriminate].
    destruct (scoreAll fetch crimeOf lighting rest) as [s | e]; cbn in H; [ | discriminate].
    injection H as <-. constructor; [ | now apply IH].
    cbn. unfold vibeScore, Math_round. apply integer_is_double.
Qed.

Lemma findAlternatives_ranks fetch found candidates crimeOf radianceOverride out :
  findAlternatives fetch found candidates crimeOf radianceOverride = Ok out ->
  exists cands radiance scored,
    candidates = Ok cands /\ radianceOverride = Finite radiance /\
    scoreAll fetch crimeOf (lightingScoreFromRadiance radiance) (firstn 10 cands) = Ok scored /\
    Forall (fun p => double (vibeOrZero p)) scored /\
    out = rankAlternatives scored.
Proof.
  unfold findAlternatives.
  destruct found as [[dest | ] | e]; cbn [bind]; try discriminate.
  destruct candidates as [cands | e]; cbn [bind]; try discriminate.
  destruct radianceOverride as [radiance | | | ]; try discriminate.
  destruct (scoreAll _ _ _ _) as [scored | e] eqn:E; cbn [bind]; try discriminate.
  intros H. injection H as <-. exists cands, radiance, scored.
  repeat split; try reflexivity; [exact E | exact (scoreAll_double _ _ _ _ _ E)].
Qed.

(* ================================================================== *)
(** * Further properties of the code *)

(* ================================================================== *)
(** ** Rounding into binary64 is monotone *)

Lemma pow2_lt (a b : Z) : (a < b)%Z -> 2 ^ a < 2 ^ b.
Proof. intros H. apply Qpower_lt_compat_l; [exact H | reflexivity]. Qed.

Lemma pow2_le_inv (a b : Z) : 2 ^ a <= 2 ^ b -> (a <= b)%Z.
Proof.
  intros H. destruct (Z_le_gt_dec a b) as [ | G]; [assumption | exfalso].
  assert (L : 2 ^ b < 2 ^ a) by (apply pow2_lt; lia). lra.
Qed.

Lemma ilog2_pow2 (k : Z) : ilog2 (2 ^ k) = k.
Proof.
  destruct (ilog2_spec (2 ^ k) (pow2_pos k)) as [L U].
  apply pow2_le_inv in L. apply pow2_lt_inv in U. lia.
Qed.

Lemma pow2_representable (k : Z) : (-1074 <= k)%Z -> representable (2 ^ k).
Proof.
  intros Hk. unfold representable, expo. rewrite ilog2_pow2.
  set (e := Z.max (k - 52) (-1074)).
  exists (2 ^ (k - e))%Z. rewrite <- pow2_Z by lia. rewrite <- pow2_add.
  replace (k - e + e)%Z with k by lia. reflexivity.
Qed.

Lemma round_half_even_mono (x y : Q) :
  x <= y -> (round_half_even x <= round_half_even y)%Z.
Proof.
  intros H. pose proof (Qfloor_resp_le x y H) as F.
  destruct (Z.eq_dec (Qfloor x) (Qfloor y)) as [E | NE].
  - unfold round_half_even. rewrite <- E.
    destruct (Qcompare (x - inject_Z (Qfloor x)) (1 # 2)) eqn:Cx;
      destruct (Qcompare (y - inject_Z (Qfloor x)) (1 # 2)) eqn:Cy;
      try (destruct (Z.even (Qfloor x))); try lia; exfalso;
      repeat match goal with
             | C : Qcompare _ _ = Eq |- _ => apply Qeq_alt in C
             | C : Qcompare _ _ = Lt |- _ => rewrite <- Qlt_alt in C
             | C : Qcompare _ _ = Gt |- _ => rewrite <- Qgt_alt in C
             end; lra.
  - assert (A : (round_half_even x <= Qfloor x + 1)%Z).
    { unfold round_half_even.
      destruct (Qcompare _ _); [destruct (Z.even _) | | ]; lia. }
    assert (B : (Qfloor y <= round_half_even y)%Z).
    { apply round_half_even_ge. apply Qfloor_le. }
    lia.
Qed.

Lemma round_pos_mono (q r : Q) : 0 < q -> q <= r -> round_pos q <= round_pos r.
Proof.
  intros Hq Hqr. assert (Hr : 0 < r) by lra.
  pose proof (expo_mono q r Hq Hqr) as He.
  assert (Lq : (-1074 <= expo q)%Z) by (unfold expo; lia).
  destruct (Z.eq_dec (expo q) (expo r)) as [E | NE].
  - unfold round_pos. rewrite <- E.
    apply Qmult_le_compat_r; [ | apply Qlt_le_weak, pow2_pos].
    rewrite <- Zle_Qle. apply round_half_even_mono.
    apply Qmult_le_compat_r; [exact Hqr | ].
    apply Qlt_le_weak, Qinv_lt_0_compat, pow2_pos.
  - apply Qle_trans with (2 ^ (expo q + 53)).
    + apply round_pos_le; [exact Hq | | apply pow2_representable; lia].
      apply Qlt_le_weak, expo_upper, Hq.
    + apply Qle_trans with (2 ^ (expo r + 52)); [apply pow2_le; lia | ].
      apply round_pos_ge; [apply pow2_pos | | apply pow2_representable; lia].
      apply expo_normal; [exact Hr | lia].
Qed.

(** The operators never reverse the order of their exact results. *)
Lemma binary64_mono (q r : Q) : q <= r -> binary64 q <= binary64 r.
Proof.
  intros H. unfold binary64.
  destruct (Qcompare q 0) eqn:Cq; destruct (Qcompare r 0) eqn:Cr;
    repeat match goal with
           | C : Qcompare _ _ = Eq |- _ => apply Qeq_alt in C
           | C : Qcompare _ _ = Lt |- _ => rewrite <- Qlt_alt in C
           | C : Qcompare _ _ = Gt |- _ => rewrite <- Qgt_alt in C
           end;
    try lra.
  - apply round_pos_nonneg. exact Cr.
  - assert (P : 0 <= round_pos (- q)) by (apply round_pos_nonneg; lra). lra.
  - assert (M : round_pos (- r) <= round_pos (- q)) by (apply round_pos_mono; lra). lra.
  - assert (P : 0 <= round_pos (- q)) by (apply round_pos_nonneg; lra).
    assert (P' : 0 <= round_pos r) by (apply round_pos_nonneg; lra). lra.
  - apply round_pos_mono; assumption.
Qed.

Lemma Math_max_mono (a x y : number) : x <= y -> Math_max a x <= Math_max a y.
Proof.
  intros H.
  destruct (Math_max_spec a x) as [[A ->] | [A ->]];
    destruct (Math_max_spec a y) as [[B ->] | [B ->]]; lra.
Qed.

Lemma Math_min_mono (a x y : number) : x <= y -> Math_min a x <= Math_min a y.
Proof.
  intros H.
  destruct (Math_min_spec a x) as [[A ->] | [A ->]];
    destruct (Math_min_spec a y) as [[B ->] | [B ->]]; lra.
Qed.

Lemma Math_round_mono (x y : number) : x <= y -> Math_round x <= Math_round y.
Proof.
  intros H. unfold Math_round. rewrite <- Zle_Qle. apply Qfloor_resp_le. lra.
Qed.

Lemma mul_lit_mono (k x y : number) : 0 <= k -> x <= y -> (k * x)%js <= (k * y)%js.
Proof.
  intros Hk H. unfold mul. apply binary64_mono. nra.
Qed.

Lemma riskLevelFromVibe_mono (v1 v2 : number) :
  v1 <= v2 ->
  (risk_rank (riskLevelFromVibe v1) <= risk_rank (riskLevelFromVibe v2))%Z.
Proof.
  intros H. unfold riskLevelFromVibe, geb.
  destruct (Qle_bool 65 v1) eqn:A1; destruct (Qle_bool 40 v1) eqn:B1;
    destruct (Qle_bool 65 v2) eqn:A2; destruct (Qle_bool 40 v2) eqn:B2;
    simpl; try lia; reflect_Qle_bool; lra.
Qed.

(** [vibeScore] falls, or stays, when the crime index grows and rises,
    or stays, when the lighting score grows; the rounding of the
    intermediate results does not disturb this. *)
Theorem vibeScore_monotone (csi csi' lighting lighting' : number) :
  csi <= csi' -> lighting <= lighting' ->
  vibeScore csi' lighting <= vibeScore csi lighting' /\
  (risk_rank (riskLevelFromVibe (vibeScore csi' lighting))
   <= risk_rank (riskLevelFromVibe (vibeScore csi lighting')))%Z.
Proof.
  intros Hc Hl.
  assert (V : vibeScore csi' lighting <= vibeScore csi lighting').
  { unfold vibeScore. apply Math_round_mono. unfold add. apply binary64_mono.
    apply Qplus_le_compat.
    - apply mul_lit_mono; [apply lit_0_7_range | ].
      unfold sub. apply binary64_mono.
      pose proof (Math_max_mono 0 _ _ (Math_min_mono 100 _ _ Hc)). lra.
    - apply mul_lit_mono; [apply lit_0_3_range | ].
      apply Math_max_mono, Math_min_mono, Hl. }
  split; [exact V | apply riskLevelFromVibe_mono, V].
Qed.

Lemma vibeScore_monotone_witness :
  vibeScore 80 15 <= vibeScore 20 85.
Proof.
  apply (vibeScore_monotone 20 80 15 85); apply Qle_bool_iff; reflexivity.
Defined.

(** [socialWarmthProxy] moves the same way: down with the crime index, up
    with the lighting score. *)
Theorem socialWarmthProxy_monotone (csi csi' lighting lighting' : number) :
  csi <= csi' -> lighting <= lighting' ->
  socialWarmthProxy csi' lighting <= socialWarmthProxy csi lighting'.
Proof.
  intros Hc Hl. unfold socialWarmthProxy. apply Math_round_mono.
  unfold add. apply binary64_mono. apply Qplus_le_compat.
  - apply mul_lit_mono; [apply lit_0_7_range | ].
    apply Math_max_mono, Math_min_mono, Hl.
  - apply mul_lit_mono; [apply lit_0_3_range | ].
    unfold sub. apply binary64_mono.
    pose proof (Math_max_mono 0 _ _ (Math_min_mono 100 _ _ Hc)). lra.
Qed.

Lemma socialWarmthProxy_monotone_witness :
  socialWarmthProxy 100 85 <= socialWarmthProxy 90 85.
Proof.
  apply (socialWarmthProxy_monotone 90 100 85 85); apply Qle_bool_iff; reflexivity.
Defined.

(* ================================================================== *)
(** ** Crime baseline fetch: the two versions side by side *)

(** Both versions of [fetchCrimeoMeterCsi] accept exactly the answers that
    are ok and carry a finite csi, and reject every other one; on an
    accepted answer the backend version returns the csi as received and
    the direct version its clamp into [0,100]: the same value when it was
    inside, 0 below, 100 above. *)
Theorem fetchCrimeoMeterCsi_versions (res : CsiResponse) :
  ((exists q, LibBackend.fetchCrimeoMeterCsi res = Ok q) <->
   csi_ok res = true /\ isFinite (csi_number res) = true) /\
  ((exists c, LibDirect.fetchCrimeoMeterCsi res = Ok c) <->
   (exists q, LibBackend.fetchCrimeoMeterCsi res = Ok q)) /\
  (forall q c,
      LibBackend.fetchCrimeoMeterCsi res = Ok q ->
      LibDirect.fetchCrimeoMeterCsi res = Ok c ->
      csi_number res = Finite q /\
      0 <= c <= 100 /\
      (0 <= q <= 100 -> c == q) /\ (q < 0 -> c == 0) /\ (100 < q -> c == 100)).
Proof.
  unfold LibBackend.fetchCrimeoMeterCsi, LibDirect.fetchCrimeoMeterCsi.
  destruct res as [ok status [q | | | ]]; destruct ok; cbn;
    (split; [ | split]);
    try (split; [intros [x H]; discriminate | intros [H1 H2]; discriminate]);
    try (split; intros [x H]; discriminate);
    try (intros q' c H; discriminate).
  - split; [auto | eauto].
  - split; eauto.
  - intros q' c H1 H2. injection H1 as <-. injection H2 as <-.
    split; [reflexivity | ]. split; [apply clamp_range | ].
    destruct (Math_min_spec 100 q) as [[A ->] | [A ->]];
      [destruct (Math_max_spec 0 100) as [[B ->] | [B ->]]
      | destruct (Math_max_spec 0 q) as [[B ->] | [B ->]]];
      repeat split; intros; lra.
Qed.

Lemma direct_crime_baseline_witness :
  exists r,
    assess LibDirect.fetchCrimeoMeterCsi answers_SAFE true (Ok (Some somewhere))
           (crime_answer 150) (Finite (63 # 10)) = Ok r /\
    exists z : Z, crime_baseline r = inject_Z z /\ (0 <= z <= 100)%Z.
Proof.
  destruct (assess LibDirect.fetchCrimeoMeterCsi answers_SAFE true (Ok (Some somewhere))
                   (crime_answer 150) (Finite (63 # 10))) as [r | e] eqn:E;
    [ | vm_compute in E; discriminate].
  exists r. split; [reflexivity | ].
  exact (direct_crime_baseline_in_range _ _ _ _ _ r E).
Defined.

(* ================================================================== *)
(** ** [assess]: failures and the ranges of what it returns *)

(** The failures of [assess], in the order the code meets them: the key
    guard, the place lookup, the crime query, the radiance check, the
    classifier.  A failed crime query is reported even when the radiance
    is not a number, and with such a radiance the outcome is a message of
    the application on which the classifier has no influence. *)
Theorem assess_failures fetch classify found crime radianceOverride :
  assess fetch classify false found crime radianceOverride
    = Throw (Message "Paste your Google Maps key and CrimeoMeter key first.") /\
  (forall e, found = Throw e ->
     assess fetch classify true found crime radianceOverride = Throw e) /\
  (found = Ok None ->
     assess fetch classify true found crime radianceOverride
       = Throw (Message "No place found for that name.")) /\
  (forall dest e, found = Ok (Some dest) -> fetch crime = Throw e ->
     assess fetch classify true found crime radianceOverride = Throw e) /\
  (forall dest csi classify', found = Ok (Some dest) -> fetch crime = Ok csi ->
     isFinite radianceOverride = false ->
     assess fetch classify' true found crime radianceOverride
       = assess fetch classify true found crime radianceOverride /\
     exists msg,
       assess fetch classify true found crime radianceOverride = Throw (Message msg)) /\
  (forall dest csi radiance e, found = Ok (Some dest) -> fetch crime = Ok csi ->
     radianceOverride = Finite radiance ->
     classify {| a_csi := csi; a_radiance := radiance;
                 a_vibe_score := vibeScore csi (lightingScoreFromRadiance radiance);
                 a_lighting_score := lightingScoreFromRadiance radiance |} = Throw e ->
     assess fetch classify true found crime radianceOverride = Throw e).
Proof.
  unfold assess. cbn [negb].
  split; [ | split; [ | split; [ | split; [ | split]]]].
  - reflexivity.
  - intros e ->. reflexivity.
  - intros ->. reflexivity.
  - intros dest e -> H. cbn [bind]. now rewrite H.
  - intros dest csi classify' -> H F. cbn [bind]. rewrite H. cbn [bind].
    destruct radianceOverride;
      [discriminate | split; [reflexivity | eexists; reflexivity] ..].
  - intros dest csi radiance e -> H -> C. cbn [bind]. rewrite H. cbn [bind].
    now rewrite C.
Qed.

Lemma assess_failures_witness :
  assess LibBackend.fetchCrimeoMeterCsi answers_SAFE true (Ok (Some somewhere))
         {| csi_ok := false; csi_status := 503; csi_number := NaN |} NaN
  = Throw (RequestFailed "Backend crime/csi" 503 "").
Proof.
  apply (proj1 (proj2 (proj2 (proj2
           (assess_failures LibBackend.fetchCrimeoMeterCsi answers_SAFE
              (Ok (Some somewhere))
              {| csi_ok := false; csi_status := 503; csi_number := NaN |} NaN))))
           somewhere); reflexivity.
Defined.

(** Whatever the versions of the library and the answers of the
    services, a result of [assess] carries a lighting score of the four
    buckets, a vibe score that is an integer of [5,96], a social warmth
    that is an integer of [0,100], an integral crime baseline, and
    safe_haven_nearby false. *)
Theorem assess_result_ranges fetch classify canRun found crime radianceOverride r :
  assess fetch classify canRun found crime radianceOverride = Ok r ->
  In (lighting_score r) [15; 35; 65; 85] /\
  (exists v : Z, vibe_score r = inject_Z v /\ (5 <= v <= 96)%Z) /\
  (exists w : Z, social_warmth r = inject_Z w /\ (0 <= w <= 100)%Z) /\
  (exists b : Z, crime_baseline r = inject_Z b) /\
  safe_haven_nearby r = false.
Proof.
  intros H. apply assess_inversion in H.
  destruct H as (csi & radiance & modelOut & _ & _ & _ & ->). cbn.
  split; [apply lightingScore_values | ]. split; [ | split; [ | split]].
  - destruct (pipeline_blend_range csi _ (lightingScore_values radiance)) as [L U].
    unfold vibeScore. apply Math_round_range.
    + change (inject_Z 5) with 5. lra.
    + change (inject_Z 96) with 96. lra.
  - destruct (warmth_blend_range _ _ (clamp_range csi)
                (clamp_range (lightingScoreFromRadiance radiance))) as [L U].
    unfold socialWarmthProxy. apply Math_round_range.
    + change (inject_Z 0) with 0. lra.
    + change (inject_Z 100) with 100. lra.
  - eexists. reflexivity.
  - reflexivity.
Qed.

Lemma assess_result_ranges_witness :
  exists r,
    assess LibBackend.fetchCrimeoMeterCsi answers_SAFE true (Ok (Some somewhere))
           (crime_answer 150) (Finite (63 # 10)) = Ok r /\
    In (lighting_score r) [15; 35; 65; 85] /\
    (exists v : Z, vibe_score r = inject_Z v /\ (5 <= v <= 96)%Z).
Proof.
  destruct (assess LibBackend.fetchCrimeoMeterCsi answers_SAFE true (Ok (Some somewhere))
                   (crime_answer 150) (Finite (63 # 10))) as [r | e] eqn:E;
    [ | vm_compute in E; discriminate].
  exists r. split; [reflexivity | ].
  destruct (assess_result_ranges _ _ _ _ _ _ r E) as (A & B & _).
  split; [exact A | exact B].
Defined.

(* ================================================================== *)
(** ** Presentation helpers *)

Lemma label_and_pill (v : number) :
  (riskLevelFromVibe v = SAFE /\ labelForScore v = "Good"
   /\ pillClass (riskLevelText (riskLevelFromVibe v)) = "pill pill-safe")%string \/
  (riskLevelFromVibe v = CAUTION /\ labelForScore v = "Mixed"
   /\ pillClass (riskLevelText (riskLevelFromVibe v)) = "pill pill-caution")%string \/
  (riskLevelFromVibe v = UNSAFE /\ labelForScore v = "Poor"
   /\ pillClass (riskLevelText (riskLevelFromVibe v)) = "pill pill-unsafe")%string.
Proof.
  unfold riskLevelFromVibe, labelForScore.
  destruct (geb v 65); [ | destruct (geb v 40)]; cbn; auto 6.
Qed.

(** The card drawn for a result of [assess] never contradicts itself: the
    pill is the safe one exactly with the label Good, the caution one with
    Mixed, the unsafe one with Poor. *)
Theorem summary_pill_matches_label fetch classify canRun found crime radianceOverride r :
  assess fetch classify canRun found crime radianceOverride = Ok r ->
  exists s,
    summary (Some r) = Some s /\
    sm_vibe s = vibe_score r /\
    ((pillClass (riskLevelText (sm_risk s)) = "pill pill-safe"
      /\ sm_vibeLabel s = "Good")%string \/
     (pillClass (riskLevelText (sm_risk s)) = "pill pill-caution"
      /\ sm_vibeLabel s = "Mixed")%string \/
     (pillClass (riskLevelText (sm_risk s)) = "pill pill-unsafe"
      /\ sm_vibeLabel s = "Poor")%string).
Proof.
  intros H. apply assess_inversion in H.
  destruct H as (csi & radiance & modelOut & _ & _ & _ & ->).
  eexists. split; [reflexivity | ]. split; [reflexivity | ].
  cbn [sm_risk sm_vibeLabel risk_level vibe_score assembleFinalResult
       p_modelOut p_vibe_score mo_risk_level].
  destruct (label_and_pill (vibeScore csi (lightingScoreFromRadiance radiance)))
    as [(_ & L & P) | [(_ & L & P) | (_ & L & P)]]; rewrite L, P; auto.
Qed.

Lemma summary_pill_witness :
  exists r s,
    assess LibBackend.fetchCrimeoMeterCsi answers_SAFE true (Ok (Some somewhere))
           (crime_answer 80) (Finite (1 # 10)) = Ok r /\
    summary (Some r) = Some s /\
    sm_vibe s = vibe_score r.
Proof.
  destruct (assess LibBackend.fetchCrimeoMeterCsi answers_SAFE true (Ok (Some somewhere))
                   (crime_answer 80) (Finite (1 # 10))) as [r | e] eqn:E;
    [ | vm_compute in E; discriminate].
  destruct (summary_pill_matches_label _ _ _ _ _ _ r E) as (s & Hs & Hv & _).
  exists r, s. split; [reflexivity | ]. split; [exact Hs | exact Hv].
Defined.

(** The confidence percentage of the card is an integer of [0,100] for
    every finite confidence, also one outside [0,1], and it never
    decreases when the confidence grows. *)
Theorem summary_confPct_range (r r' : GlowPathResult) :
  (exists s z,
      summary (Some r) = Some s /\ sm_confPct s = inject_Z z /\ (0 <= z <= 100)%Z) /\
  (confidence r <= confidence r' ->
   forall s s', summary (Some r) = Some s -> summary (Some r') = Some s' ->
                sm_confPct s <= sm_confPct s').
Proof.
  split.
  - eexists. cbn [summary].
    assert (C : 0 <= clamp01 (confidence r) <= 1).
    { unfold clamp01.
      destruct (Math_min_spec 1 (confidence r)) as [[H1 ->] | [H1 ->]];
        [destruct (Math_max_spec 0 1) as [[H2 ->] | [H2 ->]]
        | destruct (Math_max_spec 0 (confidence r)) as [[H2 ->] | [H2 ->]]]; lra. }
    assert (B : 0 <= (clamp01 (confidence r) * 100)%js <= 100).
    { unfold mul. split.
      - apply binary64_nonneg. lra.
      - apply binary64_le; [reflexivity | is_binary64 | lra]. }
    destruct (Math_round_range (clamp01 (confidence r) * 100)%js 0 100) as (z & Ez & Rz).
    + change (inject_Z 0) with 0. lra.
    + change (inject_Z 100) with 100. lra.
    + exists z. split; [reflexivity | ]. cbn. split; assumption.
  - intros H s s' Hs Hs'. injection Hs as <-. injection Hs' as <-. cbn.
    apply Math_round_mono. unfold mul. apply binary64_mono.
    assert (M : clamp01 (confidence r) <= clamp01 (confidence r'))
      by (unfold clamp01; apply Math_max_mono, Math_min_mono, H).
    lra.
Qed.

(* ================================================================== *)
(** ** The scoring loop and the two versions of [findAlternatives] *)

Section ScoringLoop.

Variable fetch : CsiResponse -> result number.
Variable crimeOf : PlaceCandidate -> CsiResponse.
Variable lighting : number.

Lemma scoreAll_Forall2 (shortlist scored : list PlaceCandidate) :
  scoreAll fetch crimeOf lighting shortlist = Ok scored ->
  Forall2 (scoredFrom fetch crimeOf lighting) shortlist scored.
Proof.
  revert scored. induction shortlist as [ | c rest IH]; cbn; intros scored H.
  - injection H as <-. constructor.
  - destruct (fetch (crimeOf c)) as [csi | e] eqn:F; cbn in H; [ | discriminate].
    destruct (scoreAll fetch crimeOf lighting rest) as [s | e]; cbn in H; [ | discriminate].
    injection H as <-. constructor; [ | now apply IH].
    exists csi. split; [exact F | reflexivity].
Qed.

Lemma scoreAll_first_failure (before after : list PlaceCandidate) (c : PlaceCandidate) e :
  Forall (fun x => exists csi, fetch (crimeOf x) = Ok csi) before ->
  fetch (crimeOf c) = Throw e ->
  scoreAll fetch crimeOf lighting (before ++ c :: after) = Throw e.
Proof.
  intros B F. induction B as [ | x before [csi Hx] B IH]; cbn.
  - now rewrite F.
  - rewrite Hx. cbn. now rewrite IH.
Qed.

Lemma scoreAll_all_succeed (shortlist : list PlaceCandidate) :
  Forall (fun x => exists csi, fetch (crimeOf x) = Ok csi) shortlist ->
  exists scored, scoreAll fetch crimeOf lighting shortlist = Ok scored.
Proof.
  intros B. induction B as [ | x rest [csi Hx] B [scored IH]]; cbn.
  - eauto.
  - rewrite Hx. cbn. rewrite IH. cbn. eauto.
Qed.

End ScoringLoop.

Lemma scoredFrom_notClosed fetch crimeOf lighting (c p : PlaceCandidate) :
  scoredFrom fetch crimeOf lighting c p -> notClosed c = notClosed p.
Proof. intros (csi & _ & ->). reflexivity. Qed.

Lemma scoreAll_ext fetch crimeOf crimeOf' lighting (shortlist : list PlaceCandidate) :
  (forall c, In c shortlist -> crimeOf c = crimeOf' c) ->
  scoreAll fetch crimeOf lighting shortlist = scoreAll fetch crimeOf' lighting shortlist.
Proof.
  induction shortlist as [ | c rest IH]; cbn; [reflexivity | ]. intros H.
  rewrite <- (H c) by auto. rewrite IH by auto. reflexivity.
Qed.

Lemma Forall2_filter_length {A B : Type} (R : A -> B -> Prop)
    (f : A -> bool) (g : B -> bool) (l : list A) (l' : list B) :
  (forall a b, R a b -> f a = g b) ->
  Forall2 R l l' -> List.length (filter f l) = List.length (filter g l').
Proof.
  intros H F. induction F as [ | a b l l' Rab F IH]; cbn; [reflexivity | ].
  rewrite <- (H a b Rab). destruct (f a); cbn; now rewrite IH.
Qed.

Lemma Forall2_In_r {A B : Type} (R : A -> B -> Prop) (l : list A) (l' : list B) (b : B) :
  Forall2 R l l' -> In b l' -> exists a, In a l /\ R a b.
Proof.
  intros F. induction F as [ | a b' l l' Rab F IH]; cbn; [intros [] | ].
  intros [<- | H]; [eauto | ]. destruct (IH H) as (a' & Ha & Ra). eauto.
Qed.

Lemma StronglySorted_firstn {A : Type} (R : A -> A -> Prop) (n : nat) (l : list A) :
  StronglySorted R l -> StronglySorted R (firstn n l).
Proof.
  intros S. revert n. induction S as [ | x l S IH F]; intros [ | n]; cbn;
    try constructor; [apply IH | ].
  rewrite Forall_forall in *. intros y Hy. apply F.
  rewrite <- (firstn_skipn n l). apply in_or_app. now left.
Qed.

Lemma In_firstn {A : Type} (n : nat) (l : list A) (x : A) :
  In x (firstn n l) -> In x l.
Proof.
  intros H. rewrite <- (firstn_skipn n l). apply in_or_app. now left.
Qed.

Lemma findAlternatives_inversion fetch found candidates crimeOf radianceOverride out :
  findAlternatives fetch found candidates crimeOf radianceOverride = Ok out ->
  exists cands radiance scored,
    candidates = Ok cands /\ radianceOverride = Finite radiance /\
    scoreAll fetch crimeOf (lightingScoreFromRadiance radiance) (firstn 10 cands)
      = Ok scored /\
    out = firstn 5 (sort_by keyLeb (filter notClosed scored)).
Proof.
  intros H. destruct (findAlternatives_ranks _ _ _ _ _ _ H)
    as (cands & radiance & scored & Hc & Hr & Hs & D & ->).
  exists cands, radiance, scored. repeat split; try assumption.
  unfold rankAlternatives. now rewrite sorted_survivors.
Qed.

Lemma findAlternatives_found fetch found candidates crimeOf radianceOverride out :
  findAlternatives fetch found candidates crimeOf radianceOverride = Ok out ->
  exists dest, found = Ok (Some dest).
Proof.
  unfold findAlternatives.
  destruct found as [[dest | ] | e]; cbn [bind]; try discriminate. eauto.
Qed.

Lemma StronglySorted_impl_In {A : Type} (R1 R2 : A -> A -> Prop) (l : list A) :
  (forall a b, In a l -> In b l -> R1 a b -> R2 a b) ->
  StronglySorted R1 l -> StronglySorted R2 l.
Proof.
  intros H S. induction S as [ | x l S IH F]; constructor.
  - apply IH. intros a b Ha Hb. apply H; now right.
  - rewrite Forall_forall in *. intros y Hy. apply H; [now left | now right | ].
    now apply F.
Qed.

(** Every candidate that leaves the scoring loop carries a score. *)
Lemma scored_have_scores fetch crimeOf lighting (shortlist scored : list PlaceCandidate) :
  Forall2 (scoredFrom fetch crimeOf lighting) shortlist scored ->
  forall p, In p scored -> exists v, pc_vibe_score p = Some v.
Proof.
  intros F p Hp. destruct (Forall2_In_r _ _ _ _ F Hp) as (c & _ & csi & _ & ->).
  eexists. reflexivity.
Qed.

(** On scored candidates the order of the comparator's keys is the order
    of the specification. *)
Lemma ranksBefore_ranksAhead (a b : PlaceCandidate) :
  (exists v, pc_vibe_score a = Some v) -> (exists v, pc_vibe_score b = Some v) ->
  ranksBefore a b -> ranksAhead a b.
Proof.
  intros [va Ha] [vb Hb] [O V]. exists va, vb. split; [exact Ha | ]. split; [exact Hb | ].
  unfold isOpen, vibeOrZero in O, V. rewrite Ha, Hb in V.
  destruct (pc_open_at_time a) as [[ | ] | ]; destruct (pc_open_at_time b) as [[ | ] | ];
    try (right; split; [split; congruence | now apply V]);
    try (left; split; congruence);
    exfalso; specialize (O eq_refl); discriminate.
Qed.

Lemma keyLeb_ranksAhead (l : list PlaceCandidate) :
  (forall p, In p l -> exists v, pc_vibe_score p = Some v) ->
  StronglySorted (fun a b => keyLeb a b = true) l ->
  StronglySorted ranksAhead l.
Proof.
  intros Sc. apply StronglySorted_impl_In. intros a b Ha Hb K.
  apply ranksBefore_ranksAhead; [now apply Sc | now apply Sc | ].
  now apply keyLeb_ranksBefore.
Qed.

Lemma tiedWith_sameKeys (k p : PlaceCandidate) :
  (exists v, pc_vibe_score k = Some v) -> (exists v, pc_vibe_score p = Some v) ->
  tiedWith k p = sameKeys k p.
Proof.
  intros [vk Hk] [vp Hp]. unfold tiedWith, sameKeys, vibeOrZero.
  rewrite Hk, Hp. reflexivity.
Qed.

Lemma tiedWith_unscored (k : PlaceCandidate) (l : list PlaceCandidate) :
  pc_vibe_score k = None -> filter (tiedWith k) l = [].
Proof.
  intros Hk. induction l as [ | p l IH]; [reflexivity | ].
  cbn [filter]. unfold tiedWith at 1. rewrite Hk. exact IH.
Qed.

(** What the time-aware [findAlternatives] returns when it returns: the
    place was found, and the list holds the best five, at most, of the
    candidates among the first ten that are not closed, each with the
    score computed from its own crime index, the open ones first and the
    scores descending inside each group. *)
Theorem findAlternatives_sound fetch found candidates crimeOf radianceOverride out :
  findAlternatives fetch found candidates crimeOf radianceOverride = Ok out ->
  exists dest cands radiance,
    found = Ok (Some dest) /\
    candidates = Ok cands /\ radianceOverride = Finite radiance /\
    List.length out = Nat.min 5 (List.length (survivors (firstn 10 cands))) /\
    (forall p, In p out ->
       exists c csi,
         In c (firstn 10 cands) /\ pc_open_at_time c <> Some false /\
         fetch (crimeOf c) = Ok csi /\
         p = withScore c (vibeScore csi (lightingScoreFromRadiance radiance))) /\
    StronglySorted ranksAhead out.
Proof.
  intros H. destruct (findAlternatives_found _ _ _ _ _ _ H) as [dest Hd].
  destruct (findAlternatives_inversion _ _ _ _ _ _ H)
    as (cands & radiance & scored & Hc & Hr & Hs & ->).
  exists dest, cands, radiance.
  split; [exact Hd | ]. split; [exact Hc | ]. split; [exact Hr | ].
  pose proof (scoreAll_Forall2 _ _ _ _ _ Hs) as F.
  change (survivors (firstn 10 cands)) with (filter notClosed (firstn 10 cands)).
  split; [ | split].
  - rewrite length_firstn. f_equal.
    rewrite (Permutation_length (sort_by_perm keyLeb _)). symmetry.
    apply (Forall2_filter_length _ _ _ _ _ (scoredFrom_notClosed _ _ _) F).
  - intros p Hp. apply In_firstn in Hp.
    apply (Permutation_in _ (sort_by_perm keyLeb _)) in Hp.
    apply filter_In in Hp. destruct Hp as [Hp Np].
    destruct (Forall2_In_r _ _ _ _ F Hp) as (c & Hcin & csi & Hf & ->).
    exists c, csi. repeat split; try assumption.
    apply notClosed_spec. exact Np.
  - apply StronglySorted_firstn. apply keyLeb_ranksAhead.
    + intros p Hp. apply (Permutation_in _ (sort_by_perm keyLeb _)) in Hp.
      apply filter_In in Hp. exact (scored_have_scores _ _ _ _ _ F p (proj1 Hp)).
    + apply (sort_by_sorted keyLeb keyLeb_total keyLeb_trans).
Qed.

Lemma findAlternatives_sound_witness :
  exists out,
    findAlternatives LibBackend.fetchCrimeoMeterCsi (Ok (Some somewhere))
      (Ok threePlaces) crimeNearby (Finite (63 # 10)) = Ok out /\
    List.length out = 2%nat /\
    StronglySorted ranksAhead out.
Proof.
  destruct (findAlternatives LibBackend.fetchCrimeoMeterCsi (Ok (Some somewhere))
              (Ok threePlaces) crimeNearby (Finite (63 # 10))) as [out | e] eqn:E;
    [ | vm_compute in E; discriminate].
  exists out. split; [reflexivity | ].
  destruct (findAlternatives_sound _ _ _ _ _ out E)
    as (dest & cands & radiance & _ & Hc & _ & L & _ & S).
  split; [ | exact S]. injection Hc as <-. rewrite L. reflexivity.
Defined.

(** C4 (amended).  On every candidate list the ranker looks at the first
    ten candidates only.  When the place is found, the radiance is a
    number and the crime queries of these ten succeed, it returns; and
    whenever it returns, it has scored these candidates in their order,
    kept exactly those whose open_at_time is not [false], sorted them with
    the open ones before the others and by descending vibe_score inside
    each group, kept the order of arrival of candidates that tie on both
    keys, and returned the first 5, at most, of that sorted list. *)
Theorem findAlternatives_ranking fetch found candidates crimeOf radianceOverride :
  (forall dest cands radiance,
      found = Ok (Some dest) -> candidates = Ok cands ->
      radianceOverride = Finite radiance ->
      Forall (fun c => exists csi, fetch (crimeOf c) = Ok csi) (firstn 10 cands) ->
      exists out, findAlternatives fetch found candidates crimeOf radianceOverride = Ok out) /\
  (forall out,
      findAlternatives fetch found candidates crimeOf radianceOverride = Ok out ->
      exists cands radiance scored sorted,
        candidates = Ok cands /\ radianceOverride = Finite radiance /\
        Forall2 (scoredFrom fetch crimeOf (lightingScoreFromRadiance radiance))
                (firstn 10 cands) scored /\
        (forall p, In p sorted <-> In p scored /\ pc_open_at_time p <> Some false) /\
        Permutation sorted (survivors scored) /\
        StronglySorted ranksAhead sorted /\
        (forall k, filter (tiedWith k) sorted = filter (tiedWith k) (survivors scored)) /\
        out = firstn 5 sorted /\
        (List.length out <= 5)%nat).
Proof.
  split.
  { intros dest cands radiance -> -> -> B. unfold findAlternatives. cbn [bind].
    destruct (scoreAll_all_succeed fetch crimeOf (lightingScoreFromRadiance radiance) _ B)
      as [scored ->].
    cbn [bind]. eauto. }
  intros out H. destruct (findAlternatives_inversion _ _ _ _ _ _ H)
    as (cands & radiance & scored & Hc & Hr & Hs & ->).
  pose proof (scoreAll_Forall2 _ _ _ _ _ Hs) as F.
  pose proof (scored_have_scores _ _ _ _ _ F) as Sc.
  assert (In_sorted : forall p, In p (sort_by keyLeb (filter notClosed scored)) ->
                                In p scored /\ notClosed p = true).
  { intros p Hp. apply (Permutation_in _ (sort_by_perm keyLeb _)) in Hp.
    now apply filter_In in Hp. }
  exists cands, radiance, scored, (sort_by keyLeb (filter notClosed scored)).
  change (survivors scored) with (filter notClosed scored).
  split; [exact Hc | ]. split; [exact Hr | ]. split; [exact F | ].
  split; [ | split; [ | split; [ | split; [ | split]]]].
  - intros p. rewrite <- notClosed_spec, <- filter_In. split; intros Hp.
    + exact (Permutation_in _ (sort_by_perm keyLeb _) Hp).
    + exact (Permutation_in _ (Permutation_sym (sort_by_perm keyLeb _)) Hp).
  - apply sort_by_perm.
  - apply keyLeb_ranksAhead.
    + intros p Hp. apply Sc. now apply In_sorted.
    + apply (sort_by_sorted keyLeb keyLeb_total keyLeb_trans).
  - intros k. destruct (pc_vibe_score k) as [vk | ] eqn:K.
    + assert (T1 : filter (tiedWith k) (sort_by keyLeb (filter notClosed scored))
                   = filter (sameKeys k) (sort_by keyLeb (filter notClosed scored))).
      { apply filter_ext_in. intros p Hp.
        apply tiedWith_sameKeys; [eauto | apply Sc; now apply In_sorted]. }
      assert (T2 : filter (tiedWith k) (filter notClosed scored)
                   = filter (sameKeys k) (filter notClosed scored)).
      { apply filter_ext_in. intros p Hp. apply filter_In in Hp.
        apply tiedWith_sameKeys; [eauto | apply Sc; tauto]. }
      rewrite T1, T2.
      apply sort_by_filter. intros x y. apply sameKeys_never_passed.
    + now rewrite !tiedWith_unscored.
  - reflexivity.
  - apply firstn_le_length.
Qed.

Lemma findAlternatives_ranking_witness :
  exists out,
    findAlternatives LibBackend.fetchCrimeoMeterCsi (Ok (Some somewhere))
      (Ok threePlaces) crimeNearby (Finite (63 # 10)) = Ok out /\
    exists sorted,
      StronglySorted ranksAhead sorted /\ out = firstn 5 sorted /\
      map pc_name out = ["station"; "cafe"]%string.
Proof.
  destruct (findAlternatives LibBackend.fetchCrimeoMeterCsi (Ok (Some somewhere))
              (Ok threePlaces) crimeNearby (Finite (63 # 10))) as [out | e] eqn:E;
    [ | vm_compute in E; discriminate].
  exists out. split; [reflexivity | ].
  destruct (proj2 (findAlternatives_ranking _ _ _ _ _) out E)
    as (cands & radiance & scored & sorted & _ & _ & _ & _ & _ & S & _ & O & _).
  exists sorted. split; [exact S | ]. split; [exact O | ].
  clear O. vm_compute in E. injection E as <-. reflexivity.
Defined.

(** C4, as stated, fails on lists of more than ten candidates: an open
    candidate in the eleventh position is not kept, and the list returned
    holds five candidates with unknown hours. *)
Lemma findAlternatives_drops_eleventh :
  nth_error elevenPlaces 10 = Some (unscored "station" (Some true)) /\
  exists out,
    findAlternatives LibBackend.fetchCrimeoMeterCsi (Ok (Some somewhere))
      (Ok elevenPlaces) crimeNearby (Finite (63 # 10)) = Ok out /\
    map pc_name out = repeat "cafe"%string 5 /\
    map pc_open_at_time out = repeat None 5.
Proof.
  split; [reflexivity | ].
  destruct (findAlternatives LibBackend.fetchCrimeoMeterCsi (Ok (Some somewhere))
              (Ok elevenPlaces) crimeNearby (Finite (63 # 10))) as [out | e] eqn:E;
    [ | vm_compute in E; discriminate].
  exists out. split; [reflexivity | ].
  vm_compute in E. injection E as <-. split; reflexivity.
Qed.

(** A failed crime query ends [findAlternatives] with that failure, the
    first one in the order of the shortlist, also when the candidate
    concerned is closed and would have been filtered out afterwards. *)
Theorem findAlternatives_aborts fetch dest cands crimeOf radiance
    (before after : list PlaceCandidate) (c : PlaceCandidate) e :
  firstn 10 cands = before ++ c :: after ->
  Forall (fun x => exists csi, fetch (crimeOf x) = Ok csi) before ->
  fetch (crimeOf c) = Throw e ->
  findAlternatives fetch (Ok (Some dest)) (Ok cands) crimeOf (Finite radiance) = Throw e.
Proof.
  intros S B F. unfold findAlternatives. cbn [bind]. rewrite S.
  now rewrite (scoreAll_first_failure _ _ _ before after c e B F).
Qed.

Lemma findAlternatives_aborts_witness :
  findAlternatives LibBackend.fetchCrimeoMeterCsi (Ok (Some somewhere))
    (Ok [unscored "cafe" None; unscored "down" (Some false); unscored "station" (Some true)])
    crimeNearby (Finite (63 # 10))
  = Throw (RequestFailed "Backend crime/csi" 503 "").
Proof.
  apply (findAlternatives_aborts LibBackend.fetchCrimeoMeterCsi somewhere _ crimeNearby
           (63 # 10) [unscored "cafe" None] [unscored "station" (Some true)]
           (unscored "down" (Some false))).
  - reflexivity.
  - constructor; [ | constructor]. exists 40. reflexivity.
  - reflexivity.
Defined.

(** Only the first ten candidates count: the candidates after the tenth,
    and the answers the crime service would give for them, change nothing
    in what [findAlternatives] returns or throws. *)
Theorem findAlternatives_first_ten fetch found cands crimeOf crimeOf' radianceOverride :
  (forall c, In c (firstn 10 cands) -> crimeOf c = crimeOf' c) ->
  findAlternatives fetch found (Ok cands) crimeOf radianceOverride
  = findAlternatives fetch found (Ok (firstn 10 cands)) crimeOf' radianceOverride.
Proof.
  intros H. unfold findAlternatives.
  destruct found as [[dest | ] | e]; cbn [bind]; try reflexivity.
  destruct radianceOverride as [radiance | | | ]; try reflexivity.
  rewrite firstn_firstn. change (Nat.min 10 10) with 10%nat.
  now rewrite (scoreAll_ext fetch crimeOf crimeOf' _ _ H).
Qed.

Lemma findAlternatives_first_ten_witness :
  findAlternatives LibBackend.fetchCrimeoMeterCsi (Ok (Some somewhere))
    (Ok (threePlaces ++ threePlaces ++ threePlaces ++ threePlaces))
    crimeNearby (Finite (63 # 10))
  = findAlternatives LibBackend.fetchCrimeoMeterCsi (Ok (Some somewhere))
      (Ok (firstn 10 (threePlaces ++ threePlaces ++ threePlaces ++ threePlaces)))
      crimeNearby (Finite (63 # 10)).
Proof.
  apply findAlternatives_first_ten. intros c _. reflexivity.
Defined.

(** On binary64 scores the comparator of the version with pasted keys
    decides the descending order of the scores. *)
Lemma compareByVibe_vibeGeb (a b : PlaceCandidate) :
  double (vibeOrZero a) -> double (vibeOrZero b) ->
  Qle_bool (compareByVibe a b) 0 = vibeGeb a b.
Proof.
  intros Da Db. unfold compareByVibe, vibeGeb, sub.
  rewrite binary64_sign by (apply double_sub; assumption).
  destruct (Qle_bool (vibeOrZero b - vibeOrZero a) 0) eqn:E1;
    destruct (Qle_bool (vibeOrZero b) (vibeOrZero a)) eqn:E2; try reflexivity;
    reflect_Qle_bool; lra.
Qed.

Lemma vibeGeb_total (a b : PlaceCandidate) : vibeGeb a b = true \/ vibeGeb b a = true.
Proof. apply Qle_bool_total. Qed.

Lemma vibeGeb_trans (a b c : PlaceCandidate) :
  vibeGeb a b = true -> vibeGeb b c = true -> vibeGeb a c = true.
Proof. unfold vibeGeb. rewrite !Qle_bool_iff. intros. lra. Qed.

Lemma sorted_by_vibe (scored : list PlaceCandidate) :
  Forall (fun p => double (vibeOrZero p)) scored ->
  Array_sort compareByVibe scored = sort_by vibeGeb scored.
Proof.
  intros D. rewrite Array_sort_sort_by. apply sort_by_ext.
  intros x y Hx Hy. rewrite Forall_forall in D.
  apply compareByVibe_vibeGeb; apply D; assumption.
Qed.

Lemma scoreAll_length fetch crimeOf lighting (shortlist scored : list PlaceCandidate) :
  scoreAll fetch crimeOf lighting shortlist = Ok scored ->
  List.length scored = List.length shortlist.
Proof.
  intros H. symmetry. exact (Forall2_length (scoreAll_Forall2 _ _ _ _ _ H)).
Qed.

(** What the [findAlternatives] of the version with pasted keys returns
    when it returns: the keys were there and the place was found, and the
    list holds the five best, by descending score, of the first eight
    candidates, exactly min(5, 8, n) of them, each with the score computed
    from its own crime index; no candidate is filtered out. *)
Theorem findAlternativesKeyed_sound fetch canRun found candidates crimeOf
    radianceOverride out :
  findAlternativesKeyed fetch canRun found candidates crimeOf radianceOverride = Ok out ->
  exists dest cands radiance,
    canRun = true /\ found = Ok (Some dest) /\
    candidates = Ok cands /\ radianceOverride = Finite radiance /\
    List.length out = Nat.min 5 (Nat.min 8 (List.length cands)) /\
    (forall p, In p out ->
       exists c csi,
         In c (firstn 8 cands) /\ fetch (crimeOf c) = Ok csi /\
         p = withScore c (vibeScore csi (lightingScoreFromRadiance radiance))) /\
    StronglySorted scoreDescending out.
Proof.
  unfold findAlternativesKeyed. destruct canRun; [ | discriminate]. cbn [negb].
  destruct found as [[dest | ] | e]; cbn [bind]; try discriminate.
  destruct candidates as [cands | e]; cbn [bind]; try discriminate.
  destruct radianceOverride as [radiance | | | ]; try discriminate.
  destruct (scoreAll _ _ _ _) as [scored | e] eqn:E; cbn [bind]; try discriminate.
  intros H.
  assert (O : firstn 5 (Array_sort compareByVibe scored) = out)
    by (injection H; exact (fun x => x)).
  clear H. subst out. exists dest, cands, radiance.
  repeat (split; [reflexivity | ]).
  rewrite (sorted_by_vibe scored (scoreAll_double _ _ _ _ _ E)).
  pose proof (scoreAll_Forall2 _ _ _ _ _ E) as F.
  split; [ | split].
  - rewrite length_firstn, (Permutation_length (sort_by_perm vibeGeb _)).
    rewrite (scoreAll_length _ _ _ _ _ E), length_firstn. reflexivity.
  - intros p Hp. apply In_firstn in Hp.
    apply (Permutation_in _ (sort_by_perm vibeGeb _)) in Hp.
    destruct (Forall2_In_r _ _ _ _ F Hp) as (c & Hcin & csi & Hf & ->).
    exists c, csi. repeat split; assumption.
  - apply StronglySorted_firstn.
    apply (StronglySorted_impl_In (fun a b => vibeGeb a b = true)).
    + intros a b Ha Hb Hab.
      apply (Permutation_in _ (sort_by_perm vibeGeb _)) in Ha, Hb.
      destruct (scored_have_scores _ _ _ _ _ F a Ha) as [va Sa].
      destruct (scored_have_scores _ _ _ _ _ F b Hb) as [vb Sb].
      exists va, vb. split; [exact Sa | ]. split; [exact Sb | ].
      unfold vibeGeb, vibeOrZero in Hab. rewrite Sa, Sb in Hab.
      apply Qle_bool_iff. exact Hab.
    + apply (sort_by_sorted vibeGeb vibeGeb_total vibeGeb_trans).
Qed.

Lemma findAlternativesKeyed_sound_witness :
  exists out,
    findAlternativesKeyed LibDirect.fetchCrimeoMeterCsi true (Ok (Some somewhere))
      (Ok threePlaces) crimeNearby (Finite (63 # 10)) = Ok out /\
    List.length out = 3%nat /\
    StronglySorted scoreDescending out.
Proof.
  destruct (findAlternativesKeyed LibDirect.fetchCrimeoMeterCsi true (Ok (Some somewhere))
              (Ok threePlaces) crimeNearby (Finite (63 # 10))) as [out | e] eqn:E;
    [ | vm_compute in E; discriminate].
  exists out. split; [reflexivity | ].
  destruct (findAlternativesKeyed_sound _ _ _ _ _ _ out E)
    as (dest & cands & radiance & _ & _ & Hc & _ & L & _ & S).
  split; [ | exact S]. injection Hc as <-. rewrite L. reflexivity.
Defined.

(** When no candidate carries opening hours, as in the version with
    pasted keys, the filter and the two-key sort of the time-aware version
    rank exactly as the one-key sort of the other version. *)
Theorem rankers_agree_without_hours (scored : list PlaceCandidate) :
  Forall (fun p => pc_open_at_time p = None) scored ->
  Forall (fun p => double (vibeOrZero p)) scored ->
  rankAlternatives scored = firstn 5 (Array_sort compareByVibe scored).
Proof.
  intros N D. unfold rankAlternatives.
  assert (K : filter notClosed scored = scored).
  { clear D. induction N as [ | p l Hp N IH]; cbn; [reflexivity | ].
    unfold notClosed at 1. rewrite Hp, IH. reflexivity. }
  rewrite sorted_survivors by exact D. rewrite sorted_by_vibe by exact D.
  rewrite K. f_equal. apply sort_by_ext. intros x y Hx Hy.
  rewrite Forall_forall in N. unfold keyLeb, vibeGeb, isOpen.
  rewrite (N x Hx), (N y Hy). reflexivity.
Qed.

Lemma rankers_agree_witness :
  rankAlternatives [candidate "x" None 50; candidate "y" None 80]
  = firstn 5 (Array_sort compareByVibe [candidate "x" None 50; candidate "y" None 80]).
Proof.
  apply rankers_agree_without_hours.
  - repeat constructor.
  - constructor; [apply (integer_is_double 50) | ].
    constructor; [apply (integer_is_double 80) | constructor].
Defined.

Lemma badges_all_unknown (l : list PlaceCandidate) :
  Forall (fun p => pc_open_at_time p = None) l ->
  map (fun p => badge_text (openBadge p)) l
  = repeat "HOURS UNKNOWN"%string (List.length l).
Proof.
  intros H. induction H as [ | p l Hp H IH]; cbn [map List.length repeat];
    [reflexivity | ].
  rewrite IH. unfold openBadge. rewrite Hp. reflexivity.
Qed.

(** Badges of a sorted list of candidates that are not closed: the OPEN
    ones, then the HOURS UNKNOWN ones. *)
Lemma badges_of_sorted (l : list PlaceCandidate) :
  StronglySorted ranksBefore l ->
  Forall (fun p => notClosed p = true) l ->
  exists n m : nat,
    map (fun p => badge_text (openBadge p)) l
    = (repeat "OPEN"%string n ++ repeat "HOURS UNKNOWN"%string m)%list.
Proof.
  intros Srt. induction Srt as [ | x l Srt IH F]; intros N.
  - exists 0%nat, 0%nat. reflexivity.
  - inversion N as [ | x' l' Nx Nl]; subst.
    destruct (pc_open_at_time x) as [[ | ] | ] eqn:Ox.
    + destruct (IH Nl) as (n & m & E). exists (S n), m.
      cbn [map repeat app]. rewrite E. unfold openBadge. rewrite Ox. reflexivity.
    + unfold notClosed in Nx. rewrite Ox in Nx. discriminate.
    + exists 0%nat, (S (List.length l)). cbn [map repeat app].
      rewrite badges_all_unknown.
      * unfold openBadge. rewrite Ox. reflexivity.
      * rewrite Forall_forall in *. intros y Hy.
        destruct (F y Hy) as [R _]. specialize (Nl y Hy).
        unfold isOpen, notClosed in *. rewrite Ox in R.
        destruct (pc_open_at_time y) as [[ | ] | ]; try reflexivity;
          [specialize (R eq_refl) | ]; discriminate.
Qed.

(** In the list that [findAlternatives] returns no candidate wears the
    CLOSED badge, and every OPEN badge stands before every HOURS UNKNOWN
    one. *)
Theorem findAlternatives_badges fetch found candidates crimeOf radianceOverride out :
  findAlternatives fetch found candidates crimeOf radianceOverride = Ok out ->
  exists n m : nat,
    map (fun p => badge_text (openBadge p)) out
    = (repeat "OPEN"%string n ++ repeat "HOURS UNKNOWN"%string m)%list.
Proof.
  intros H. destruct (findAlternatives_inversion _ _ _ _ _ _ H)
    as (cands & radiance & scored & _ & _ & _ & ->).
  apply badges_of_sorted.
  - apply StronglySorted_firstn.
    apply (StronglySorted_impl (fun a b => keyLeb a b = true)).
    + intros a b. apply keyLeb_ranksBefore.
    + apply (sort_by_sorted keyLeb keyLeb_total keyLeb_trans).
  - apply Forall_forall. intros p Hp. apply In_firstn in Hp.
    apply (Permutation_in _ (sort_by_perm keyLeb _)) in Hp.
    apply filter_In in Hp. tauto.
Qed.

Lemma findAlternatives_badges_witness :
  exists out (n m : nat),
    findAlternatives LibBackend.fetchCrimeoMeterCsi (Ok (Some somewhere))
      (Ok threePlaces) crimeNearby (Finite (63 # 10)) = Ok out /\
    map (fun p => badge_text (openBadge p)) out
    = (repeat "OPEN"%string n ++ repeat "HOURS UNKNOWN"%string m)%list.
Proof.
  destruct (findAlternatives LibBackend.fetchCrimeoMeterCsi (Ok (Some somewhere))
              (Ok threePlaces) crimeNearby (Finite (63 # 10))) as [out | e] eqn:E;
    [ | vm_compute in E; discriminate].
  destruct (findAlternatives_badges _ _ _ _ _ out E) as (n & m & B).
  exists out, n, m. split; [reflexivity | exact B].
Defined.

(* ================================================================== *)
(** ** The two classifiers side by side *)

Lemma substring_all (n : nat) (s : string) :
  (String.length s <= n)%nat -> substring 0 n s = s.
Proof.
  revert n. induction s as [ | c s IH]; intros [ | n] H; cbn in *;
    try reflexivity; try lia.
  f_equal. apply IH. lia.
Qed.


(** On an answer that conforms to the output schema the backend-proxy
    [geminiClassify] and the schema-validating one return the same risk
    level, classification, confidence and rationale. *)
Theorem classifiers_agree_on_conforming s2n n2s status text (v : json) :
  conforms v ->
  exists m raw,
    LibZod.geminiClassify (Some v) = Ok m /\
    LibProxy.geminiClassify s2n n2s
      {| res_ok := true; res_status := status; res_text := text; res_json := Some v |}
      = Ok raw /\
    LibZod.z_enum LibZod.riskLevels (LibProxy.raw_risk_level raw)
      = Some (mo_risk_level m) /\
    LibZod.z_enum LibZod.classifications (LibProxy.raw_classification raw)
      = Some (mo_classification m) /\
    LibProxy.raw_confidence raw = Finite (mo_confidence m) /\
    LibProxy.raw_rationale raw = mo_rationale m.
Proof.
  intros C. destruct (outputSchema_parse_conforms v C) as [m Hm].
  destruct (outputSchema_parse_Ok v m Hm) as (_ & Hr & Hc & Hq & Hs).
  destruct C as (fields & r & c & s & q & -> & _ & _ & _ & _ & _ & _ & Hs' & Ls).
  exists m. eexists. split; [exact Hm | ]. split; [reflexivity | ].
  cbn [LibProxy.raw_risk_level LibProxy.raw_classification
       LibProxy.raw_confidence LibProxy.raw_rationale].
  split; [exact Hr | ]. split; [exact Hc | ].
  rewrite Hq, Hs. cbn [LibProxy.nullish LibProxy.ToNumber LibProxy.ToString].
  split; [reflexivity | ].
  apply substring_all. cbn [prop] in Hs. rewrite Hs' in Hs.
  injection Hs as <-. exact Ls.
Qed.

Lemma classifiers_agree_witness :
  exists m raw,
    LibZod.geminiClassify
      (Some (JObj [("risk_level", JStr "UNSAFE");
                   ("classification", JStr "INFRA_MISMATCH");
                   ("confidence", JNum (Finite (4 # 5)));
                   ("rationale", JStr "low CSI, poor lighting")]%string)) = Ok m /\
    LibProxy.geminiClassify (fun _ => NaN) (fun _ => EmptyString)
      (ok_response (JObj [("risk_level", JStr "UNSAFE");
                          ("classification", JStr "INFRA_MISMATCH");
                          ("confidence", JNum (Finite (4 # 5)));
                          ("rationale", JStr "low CSI, poor lighting")]%string)) = Ok raw /\
    LibProxy.raw_confidence raw = Finite (mo_confidence m).
Proof.
  destruct (classifiers_agree_on_conforming (fun _ => NaN) (fun _ => EmptyString)
              200%Z EmptyString
              (JObj [("risk_level", JStr "UNSAFE");
                     ("classification", JStr "INFRA_MISMATCH");
                     ("confidence", JNum (Finite (4 # 5)));
                     ("rationale", JStr "low CSI, poor lighting")]%string))
    as (m & raw & Hm & Hraw & _ & _ & Hq & _).
  - exists [("risk_level", JStr "UNSAFE"); ("classification", JStr "INFRA_MISMATCH");
            ("confidence", JNum (Finite (4 # 5)));
            ("rationale", JStr "low CSI, poor lighting")]%string,
      "UNSAFE"%string, "INFRA_MISMATCH"%string, "low CSI, poor lighting"%string, (4 # 5).
    repeat split; try reflexivity; cbn; auto 6; try lia.
    + apply Qle_bool_iff. reflexivity.
    + apply Qle_bool_iff. reflexivity.
  - exists m, raw. repeat split; assumption.
Defined.



(* ================================================================== *)
(** ** Place lookup *)

Lemma nullish_not_null (a : option json) (b : json) :
  b <> JNull -> LibProxy.nullish a b <> JNull.
Proof.
  intros Hb. destruct a as [[ | | | | | ] | ]; cbn; congruence.
Qed.

Lemma rawPlace_Ok (fallback : string) (p : json) (place : RawPlace) :
  BackendPlaces.rawPlace fallback p = Ok place ->
  p <> JNull /\
  (exists loc, prop p "location" = Some loc /\ loc <> JNull /\
               rp_lat place = prop loc "lat" /\ rp_lng place = prop loc "lng") /\
  rp_name place = LibProxy.nullish (prop p "name") (JStr fallback) /\
  rp_name place <> JNull.
Proof.
  unfold BackendPlaces.rawPlace. intros H.
  assert (Np : p <> JNull) by (intros ->; discriminate).
  destruct (prop p "location") as [loc | ] eqn:L.
  - assert (Nl : loc <> JNull) by (intros ->; destruct p; discriminate).
    assert (E : place
                = {| rp_name := LibProxy.nullish (prop p "name") (JStr fallback);
                     rp_address := prop p "address";
                     rp_lat := prop loc "lat"; rp_lng := prop loc "lng";
                     rp_placeId := prop p "placeId" |})
      by (destruct p; destruct loc; congruence).
    subst place. cbn [rp_name rp_lat rp_lng]. repeat split; eauto.
    apply nullish_not_null. discriminate.
  - destruct p; discriminate.
Qed.

Lemma rawPlace_Throw (fallback : string) (p : json) e :
  BackendPlaces.rawPlace fallback p = Throw e ->
  e = TypeError /\
  (p = JNull \/ prop p "location" = None \/ prop p "location" = Some JNull).
Proof.
  unfold BackendPlaces.rawPlace. intros H.
  destruct p; try (injection H as <-; auto);
    destruct (prop _ "location") as [[ | | | | | ] | ];
    try discriminate; injection H as <-; auto.
Qed.

(** The backend [placeTextSearch]: status 404 means no place and is not a
    failure, whatever else the response holds; any other response that is
    not ok is a failure; a body without a location object makes the
    function throw a TypeError; and the name of a place that is returned
    is the name received, or the query when none was received, never
    null. *)
Theorem backend_placeTextSearch_outcomes (res : HttpResponse) (query : string) :
  (res_status res = 404%Z -> BackendPlaces.placeTextSearch res query = Ok None) /\
  (res_status res <> 404%Z -> res_ok res = false ->
     BackendPlaces.placeTextSearch res query
     = Throw (RequestFailed "Backend place/text" (res_status res) "")) /\
  (forall place, BackendPlaces.placeTextSearch res query = Ok (Some place) ->
     rp_name place <> JNull /\
     exists p, res_json res = Some p /\
       rp_name place = LibProxy.nullish (prop p "name") (JStr query) /\
       exists loc, prop p "location" = Some loc /\ loc <> JNull) /\
  (forall p, res_status res <> 404%Z -> res_ok res = true -> res_json res = Some p ->
     (p = JNull \/ prop p "location" = None \/ prop p "location" = Some JNull) ->
     BackendPlaces.placeTextSearch res query = Throw TypeError).
Proof.
  unfold BackendPlaces.placeTextSearch. repeat split.
  - intros ->. reflexivity.
  - intros N F. apply Z.eqb_neq in N. rewrite N, F. reflexivity.
  - destruct (res_status res =? 404)%Z; [discriminate | ].
    destruct (negb (res_ok res)); [discriminate | ].
    destruct (res_json res) as [p | ]; [ | discriminate].
    destruct (BackendPlaces.rawPlace query p) as [pl | e] eqn:R; cbn in H;
      [ | discriminate].
    injection H as <-. apply (rawPlace_Ok _ _ _ R).
  - destruct (res_status res =? 404)%Z; [discriminate | ].
    destruct (negb (res_ok res)); [discriminate | ].
    destruct (res_json res) as [p | ]; [ | discriminate].
    destruct (BackendPlaces.rawPlace query p) as [pl | e] eqn:R; cbn in H;
      [ | discriminate].
    injection H as <-. exists p. split; [reflexivity | ].
    destruct (rawPlace_Ok _ _ _ R) as (_ & (loc & L & Nl & _) & Hn & _).
    split; [exact Hn | eauto].
  - intros p N O J B. apply Z.eqb_neq in N. rewrite N, O, J. cbn [negb].
    destruct (BackendPlaces.rawPlace query p) as [pl | e] eqn:R; cbn [bind].
    + exfalso. destruct (rawPlace_Ok _ _ _ R) as (Np & (loc & L & Nl & _) & _).
      destruct B as [-> | [B | B]]; congruence.
    + destruct (rawPlace_Throw _ _ _ R) as [-> _]. reflexivity.
Qed.

Lemma backend_placeTextSearch_witness :
  BackendPlaces.placeTextSearch
    {| res_ok := true; res_status := 200; res_text := "";
       res_json := Some (JObj [("name", JStr "Soho")]%string) |} "Soho, London"
  = Throw TypeError.
Proof.
  apply (proj2 (proj2 (proj2 (backend_placeTextSearch_outcomes
           {| res_ok := true; res_status := 200; res_text := "";
              res_json := Some (JObj [("name", JStr "Soho")]%string) |} "Soho, London")))
           (JObj [("name", JStr "Soho")]%string));
    try reflexivity; [discriminate | right; left; reflexivity].
Defined.

(** The direct [placeTextSearch] treats every response that is not ok, 404
    included, as a failure, and never throws on a JSON body: it returns no
    place unless the first entry of [places] has a truthy location, and a
    place it returns has a name that is not null. *)
Theorem direct_placeTextSearch_outcomes (res : HttpResponse) (query : string) :
  (res_ok res = false ->
     DirectPlaces.placeTextSearch res query
     = Throw (RequestFailed "Places Text Search" (res_status res) "")) /\
  (forall data, res_ok res = true -> res_json res = Some data ->
     exists found, DirectPlaces.placeTextSearch res query = Ok found /\
       (forall place, found = Some place ->
          rp_name place <> JNull /\
          exists p, optIndex0 (optProp (Some data) "places") = Some p /\
                    ToBoolean (optProp (Some p) "location") = true) /\
       (found = None ->
          forall p, optIndex0 (optProp (Some data) "places") = Some p ->
                    ToBoolean (optProp (Some p) "location") = false)).
Proof.
  unfold DirectPlaces.placeTextSearch. split.
  - intros ->. reflexivity.
  - intros data -> ->. cbn [negb].
    destruct (optIndex0 (optProp (Some data) "places")) as [p | ].
    + unfold DirectPlaces.hasLocation.
      destruct (ToBoolean (optProp (Some p) "location")) eqn:T; eexists;
        (split; [reflexivity | ]); split; try discriminate.
      * intros place E. injection E as <-. split; [ | eauto].
        apply nullish_not_null. discriminate.
      * intros _ p' E. injection E as <-. exact T.
    + eexists. split; [reflexivity | ]. split; discriminate.
Qed.

Lemma direct_placeTextSearch_witness :
  DirectPlaces.placeTextSearch
    {| res_ok := false; res_status := 404; res_text := ""; res_json := None |} "Soho"
  = Throw (RequestFailed "Places Text Search" 404 "").
Proof.
  apply (proj1 (direct_placeTextSearch_outcomes
                  {| res_ok := false; res_status := 404; res_text := "";
                     res_json := None |} "Soho")).
  reflexivity.
Defined.

(* ================================================================== *)
(** ** Nearby candidates *)

Lemma mapM_Forall2 {A B : Type} (f : A -> result B) (items : list A) (ys : list B) :
  mapM f items = Ok ys -> Forall2 (fun x y => f x = Ok y) items ys.
Proof.
  revert ys. induction items as [ | x rest IH]; cbn; intros ys H.
  - injection H as <-. constructor.
  - destruct (f x) as [y | e] eqn:F; cbn in H; [ | discriminate].
    destruct (mapM f rest) as [ys' | e]; cbn in H; [ | discriminate].
    injection H as <-. constructor; [exact F | now apply IH].
Qed.

Lemma mapM_first_failure {A B : Type} (f : A -> result B)
    (before after : list A) (x : A) e :
  Forall (fun a => exists b, f a = Ok b) before -> f x = Throw e ->
  mapM f (before ++ x :: after) = Throw e.
Proof.
  intros H F. induction H as [ | a before [b Ha] H IH]; cbn.
  - now rewrite F.
  - rewrite Ha. cbn. now rewrite IH.
Qed.

(** The time-aware [nearbyCandidates] keeps the places in the order
    received, one candidate per place, and reads the opening status as
    three values: open only for the literal [true], closed only for the
    literal [false], unknown for everything else (absent, null, a string,
    a number); [hours_known] is the truthiness of what was received, and
    no name is null. *)
Theorem nearbyCandidates_three_valued (res : HttpResponse) (cands : list RawCandidate) :
  TimeAwarePlaces.nearbyCandidates res = Ok cands ->
  exists items,
    (res_json res = Some (JArr items) \/ (res_json res = Some JNull /\ items = [])) /\
    Forall2 (fun p c =>
               (rc_open_at_time c = Some true <-> prop p "open_at_time" = Some (JBool true)) /\
               (rc_open_at_time c = Some false <-> prop p "open_at_time" = Some (JBool false)) /\
               rc_hours_known c = ToBoolean (prop p "hours_known") /\
               rp_name (rc_place c) <> JNull)
            items cands.
Proof.
  unfold TimeAwarePlaces.nearbyCandidates.
  destruct (negb (res_ok res)); [discriminate | ].
  destruct (res_json res) as [[ | b | n | s | items | fields] | ]; try discriminate.
  - intros H. injection H as <-. exists []. split; [auto | constructor].
  - intros H. exists items. split; [auto | ].
    apply mapM_Forall2 in H. eapply Forall2_impl; [ | exact H].
    intros p c Hc. unfold TimeAwarePlaces.rawCandidate in Hc.
    destruct (BackendPlaces.rawPlace "Unknown" p) as [place | e] eqn:R; cbn in Hc;
      [ | discriminate].
    injection Hc as <-. cbn [rc_open_at_time rc_hours_known rc_place].
    destruct (rawPlace_Ok _ _ _ R) as (_ & _ & _ & Nn).
    unfold TimeAwarePlaces.normalizeOpen.
    destruct (prop p "open_at_time") as [[ | [ | ] | | | | ] | ];
      repeat split; intros; congruence.
Qed.

Lemma nearbyCandidates_three_valued_witness :
  exists (cands : list RawCandidate) (items : list json),
    TimeAwarePlaces.nearbyCandidates
      (ok_response
         (JArr [JObj [("name", JStr "cafe");
                      ("location", JObj [("lat", JNum (Finite 51)); ("lng", JNum (Finite 0))]);
                      ("open_at_time", JStr "false")]]%string)) = Ok cands /\
    List.length items = List.length cands.
Proof.
  destruct (TimeAwarePlaces.nearbyCandidates
      (ok_response
         (JArr [JObj [("name", JStr "cafe");
                      ("location", JObj [("lat", JNum (Finite 51)); ("lng", JNum (Finite 0))]);
                      ("open_at_time", JStr "false")]]%string))) as [cands | e] eqn:E;
    [ | vm_compute in E; discriminate].
  destruct (nearbyCandidates_three_valued _ cands E) as (items & _ & F).
  exists cands, items. split; [reflexivity | exact (Forall2_length F)].
Defined.

Lemma mapM_some_failure {A B : Type} (f : A -> result B) (e0 : exn)
    (before after : list A) (x : A) :
  (forall a e, f a = Throw e -> e = e0) -> f x = Throw e0 ->
  mapM f (before ++ x :: after) = Throw e0.
Proof.
  intros Only F. induction before as [ | a before IH]; cbn.
  - now rewrite F.
  - destruct (f a) as [b | e] eqn:Fa; cbn.
    + now rewrite IH.
    + now rewrite (Only a e Fa).
Qed.

Lemma rawCandidate_Throw (p : json) e :
  TimeAwarePlaces.rawCandidate p = Throw e -> e = TypeError.
Proof.
  unfold TimeAwarePlaces.rawCandidate.
  destruct (BackendPlaces.rawPlace "Unknown" p) as [place | e'] eqn:R; cbn;
    [discriminate | ].
  intros H. injection H as <-. exact (proj1 (rawPlace_Throw _ _ _ R)).
Qed.

Lemma rawPlace_unlocated (fallback : string) (p : json) :
  (p = JNull \/ prop p "location" = None \/ prop p "location" = Some JNull) ->
  BackendPlaces.rawPlace fallback p = Throw TypeError.
Proof.
  unfold BackendPlaces.rawPlace.
  intros [-> | [H | H]]; [reflexivity | | ];
    destruct p; try reflexivity; rewrite H; reflexivity.
Qed.

Lemma hasLocation_unlocated (p : json) :
  (p = JNull \/ prop p "location" = None \/ prop p "location" = Some JNull) ->
  DirectPlaces.hasLocation p = false.
Proof.
  unfold DirectPlaces.hasLocation, optProp.
  intros [-> | [H | H]]; [reflexivity | | ];
    destruct p; try reflexivity; rewrite H; reflexivity.
Qed.

Lemma filter_all {A : Type} (f : A -> bool) (l : list A) :
  Forall (fun x => f x = true) l -> filter f l = l.
Proof.
  intros H. induction H as [ | x l Hx H IH]; cbn; [reflexivity | ].
  now rewrite Hx, IH.
Qed.

(** One place without a location object, or a null entry, wherever it
    stands in the list, makes both backend versions of [nearbyCandidates]
    throw a TypeError and lose the whole list, while the direct version
    answers as if that place had not been sent: when the other places all
    carry a location object it returns every one of them. *)
Theorem nearbyCandidates_missing_location (before after : list json) (p : json) :
  (p = JNull \/ prop p "location" = None \/ prop p "location" = Some JNull) ->
  BackendPlaces.nearbyCandidates (ok_response (JArr (before ++ p :: after)))
    = Throw TypeError /\
  TimeAwarePlaces.nearbyCandidates (ok_response (JArr (before ++ p :: after)))
    = Throw TypeError /\
  DirectPlaces.nearbyCandidates
    (ok_response (JObj [("places", JArr (before ++ p :: after))]%string))
  = DirectPlaces.nearbyCandidates
      (ok_response (JObj [("places", JArr (before ++ after))]%string)) /\
  (Forall (fun x => exists fields, prop x "location" = Some (JObj fields))
          (before ++ after) ->
   exists out,
     DirectPlaces.nearbyCandidates
       (ok_response (JObj [("places", JArr (before ++ p :: after))]%string)) = Ok out /\
     List.length out = (List.length before + List.length after)%nat /\
     Forall2 (fun x place =>
                rp_lat place = optProp (prop x "location") "latitude" /\
                rp_lng place = optProp (prop x "location") "longitude")
             (before ++ after) out).
Proof.
  intros Hp.
  assert (D : DirectPlaces.nearbyCandidates
                (ok_response (JObj [("places", JArr (before ++ p :: after))]%string))
              = DirectPlaces.nearbyCandidates
                  (ok_response (JObj [("places", JArr (before ++ after))]%string))).
  { unfold DirectPlaces.nearbyCandidates.
    cbn [ok_response res_ok res_json negb optProp prop assoc String.eqb Ascii.eqb Bool.eqb].
    rewrite !filter_app. cbn [filter]. now rewrite (hasLocation_unlocated p Hp). }
  split; [ | split; [ | split; [exact D | ]]].
  - unfold BackendPlaces.nearbyCandidates. cbn [ok_response res_ok res_json negb].
    apply mapM_some_failure.
    + intros a e Ha. exact (proj1 (rawPlace_Throw _ _ _ Ha)).
    + now apply rawPlace_unlocated.
  - unfold TimeAwarePlaces.nearbyCandidates. cbn [ok_response res_ok res_json negb].
    apply mapM_some_failure.
    + exact rawCandidate_Throw.
    + unfold TimeAwarePlaces.rawCandidate. now rewrite rawPlace_unlocated.
  - intros L. rewrite D. unfold DirectPlaces.nearbyCandidates.
    cbn [ok_response res_ok res_json negb optProp prop assoc String.eqb Ascii.eqb Bool.eqb].
    rewrite filter_all.
    + eexists. split; [reflexivity | ]. split.
      * now rewrite length_map, length_app.
      * clear. induction (before ++ after) as [ | x l IH]; cbn [map]; constructor;
          [split; reflexivity | exact IH].
    + eapply Forall_impl; [ | exact L]. intros x [fields Hx].
      unfold DirectPlaces.hasLocation, optProp. destruct x; try discriminate.
      now rewrite Hx.
Qed.

Lemma nearbyCandidates_missing_location_witness :
  BackendPlaces.nearbyCandidates
    (ok_response (JArr ([placeJson "cafe"] ++ JObj [("name", JStr "nowhere")]%string
                          :: [placeJson "bar"])))
    = Throw TypeError /\
  TimeAwarePlaces.nearbyCandidates
    (ok_response (JArr ([placeJson "cafe"] ++ JObj [("name", JStr "nowhere")]%string
                          :: [placeJson "bar"])))
    = Throw TypeError /\
  exists out,
    DirectPlaces.nearbyCandidates
      (ok_response
         (JObj [("places",
                 JArr ([directPlaceJson "cafe"] ++ JObj [("id", JStr "nowhere")]
                         :: [directPlaceJson "bar"]))]%string)) = Ok out /\
    List.length out = 2%nat.
Proof.
  split; [ | split].
  - apply (nearbyCandidates_missing_location [placeJson "cafe"] [placeJson "bar"]
             (JObj [("name", JStr "nowhere")]%string)).
    right; left; reflexivity.
  - apply (nearbyCandidates_missing_location [placeJson "cafe"] [placeJson "bar"]
             (JObj [("name", JStr "nowhere")]%string)).
    right; left; reflexivity.
  - destruct (nearbyCandidates_missing_location
                [directPlaceJson "cafe"] [directPlaceJson "bar"]
                (JObj [("id", JStr "nowhere")]%string)
                (or_intror (or_introl eq_refl))) as (_ & _ & _ & R).
    destruct R as (out & E & L & _).
    + repeat constructor; eexists; reflexivity.
    + exists out. split; [exact E | exact L].
Defined.



(* ================================================================== *)
(** ** The state the handlers leave behind *)

(** One run of a handler, taken alone.  Assessing empties the list of
    alternatives, and leaves either the new result with no error or no
    result with the error; looking for alternatives never touches the
    result of the last assessment, and leaves either the new list with no
    error or the empty list with the error. *)
Theorem handlers_frame (messageOf : exn -> string) (s : UiState) :
  (forall outcome,
      ui_alts (assessHandler messageOf outcome s) = [] /\
      (forall r, outcome = Ok r ->
         ui_result (assessHandler messageOf outcome s) = Some r /\
         ui_err (assessHandler messageOf outcome s) = EmptyString /\
         ui_status (assessHandler messageOf outcome s) = "Done."%string) /\
      (forall e, outcome = Throw e ->
         ui_result (assessHandler messageOf outcome s) = None /\
         ui_err (assessHandler messageOf outcome s) = messageOf e /\
         ui_status (assessHandler messageOf outcome s) = EmptyString)) /\
  (forall outcome,
      ui_result (alternativesHandler messageOf outcome s) = ui_result s /\
      (forall alts, outcome = Ok alts ->
         ui_alts (alternativesHandler messageOf outcome s) = alts /\
         ui_err (alternativesHandler messageOf outcome s) = EmptyString /\
         ui_status (alternativesHandler messageOf outcome s) = "Done."%string) /\
      (forall e, outcome = Throw e ->
         ui_alts (alternativesHandler messageOf outcome s) = [] /\
         ui_err (alternativesHandler messageOf outcome s) = messageOf e /\
         ui_status (alternativesHandler messageOf outcome s) = EmptyString)).
Proof.
  split; intros [x | e]; (split; [reflexivity | ]); split; intros y Hy;
    try discriminate Hy; injection Hy as <-; auto.
Qed.

(* ================================================================== *)
(** ** How far the scores are from the exact blend *)

Lemma multiple_representable (M j : Z) :
  (0 < M < 2 ^ 53)%Z -> (-1074 <= j)%Z -> representable (inject_Z M * 2 ^ j).
Proof.
  intros [M0 M1] Hj. set (r := inject_Z M * 2 ^ j).
  assert (P : 0 < 2 ^ j) by apply pow2_pos.
  assert (Hr : 0 < r).
  { unfold r. apply Qmult_lt_0_compat; [ | exact P].
    rewrite <- (Zlt_Qlt 0). exact M0. }
  assert (U : r < 2 ^ (j + 53)).
  { unfold r. rewrite Z.add_comm, pow2_add, (pow2_Z 53) by lia.
    apply Qmult_lt_r; [exact P | ]. rewrite <- Zlt_Qlt. exact M1. }
  destruct (ilog2_spec r Hr) as [L _].
  assert (I : (ilog2 r < j + 53)%Z).
  { apply pow2_lt_inv. apply Qle_lt_trans with r; assumption. }
  unfold representable. fold r. set (e := expo r).
  assert (E : (e <= j)%Z) by (unfold e, expo; lia).
  exists (M * 2 ^ (j - e))%Z. rewrite inject_Z_mult, <- pow2_Z by lia.
  rewrite <- Qmult_assoc, <- pow2_add.
  replace (j - e + e)%Z with j by lia. reflexivity.
Qed.

(** The rounding error of one operation on operands of this size: at most
    2^-40. *)
Lemma binary64_error (q : Q) :
  0 <= q <= 4000 -> q - 2 ^ (-40) <= binary64 q <= q + 2 ^ (-40).
Proof.
  intros [Q0 Q1].
  remember (2 ^ (-40)) as u eqn:Eu.
  assert (Pu : 0 < u) by (subst u; apply pow2_pos).
  assert (Vu : u * inject_Z (2 ^ 40) == 1) by (subst u; reflexivity).
  set (K := Qfloor (q / u)).
  assert (Eq : q / u * u == q) by (field; lra).
  assert (KL : inject_Z K * u <= q).
  { apply Qle_trans with (q / u * u); [ | rewrite Eq; apply Qle_refl].
    apply Qmult_le_compat_r; [apply Qfloor_le | lra]. }
  assert (KU : q < inject_Z (K + 1) * u).
  { apply Qle_lt_trans with (q / u * u); [rewrite Eq; apply Qle_refl | ].
    apply Qmult_lt_r; [exact Pu | ]. apply Qlt_floor. }
  assert (K0 : (0 <= K)%Z).
  { unfold K. rewrite <- (Qfloor_Z 0). apply Qfloor_resp_le.
    change (inject_Z 0) with 0. apply Qle_shift_div_l; [exact Pu | lra]. }
  assert (K1 : (K + 1 < 2 ^ 53)%Z).
  { assert (B : inject_Z K <= 4000 * inject_Z (2 ^ 40)).
    { apply Qle_trans with (q / u); [apply Qfloor_le | ].
      apply Qle_shift_div_r; [exact Pu | ].
      setoid_replace (4000 * inject_Z (2 ^ 40) * u) with (4000 * (u * inject_Z (2 ^ 40)))
        by ring.
      rewrite Vu. lra. }
    assert (B' : (K <= 4000 * 2 ^ 40)%Z).
    { rewrite Zle_Qle, inject_Z_mult. exact B. }
    lia. }
  rewrite inject_Z_plus in KU. change (inject_Z 1) with 1 in KU.
  split.
  - destruct (Z.eq_dec K 0) as [Z0 | NZ].
    + rewrite Z0 in KU. change (inject_Z 0) with 0 in KU.
      pose proof (binary64_nonneg q Q0). lra.
    + apply Qle_trans with (inject_Z K * u); [lra | ].
      apply binary64_ge; [ | | exact KL].
      * apply Qmult_lt_0_compat; [rewrite <- (Zlt_Qlt 0); lia | exact Pu].
      * subst u. apply multiple_representable; lia.
  - apply Qle_trans with (inject_Z (K + 1) * u).
    + apply binary64_le.
      * apply Qmult_lt_0_compat; [rewrite <- (Zlt_Qlt 0); lia | exact Pu].
      * subst u. apply multiple_representable; lia.
      * rewrite inject_Z_plus. change (inject_Z 1) with 1. lra.
    + rewrite inject_Z_plus. change (inject_Z 1) with 1. lra.
Qed.

Lemma binary64_error_small (q : Q) :
  0 <= q <= 4000 ->
  q - (1 # 1000000000000) <= binary64 q <= q + (1 # 1000000000000).
Proof.
  intros H. pose proof (binary64_error q H) as [L U].
  assert (B : 2 ^ (-40) <= 1 # 1000000000000) by by_computation.
  remember (2 ^ (-40)) as u. lra.
Qed.

Lemma lit_0_7_error : (7 # 10) - (1 # 1000000000000000) <= lit_0_7.
Proof. by_computation. Qed.

Lemma lit_0_3_error : (3 # 10) - (1 # 1000000000000000) <= lit_0_3.
Proof. by_computation. Qed.

(** A product with a literal: the literal is off by at most 10^-15, the
    other operand by at most [d], and the product is rounded once. *)
Lemma mul_error (k k0 x x0 d : Q) :
  0 <= k -> k <= k0 -> k0 <= 1 -> k0 - (1 # 1000000000000000) <= k ->
  0 <= x0 <= 100 -> 0 <= x -> 0 <= d <= 1 -> x0 - d <= x <= x0 + d ->
  k0 * x0 - d - (2 # 1000000000000) <= (k * x)%js /\
  (k * x)%js <= k0 * x0 + d + (2 # 1000000000000) /\
  0 <= (k * x)%js.
Proof.
  intros K0 K1 K2 K3 [X0 X1] X [D0 D1] [XL XU]. unfold mul.
  assert (R : 0 <= k * x <= 4000) by nra.
  pose proof (binary64_error_small _ R) as [L U].
  pose proof (binary64_nonneg _ (proj1 R)) as N.
  assert (A : k0 * x0 - d - (1 # 1000000000000) <= k * x) by nra.
  assert (B : k * x <= k0 * x0 + d + (1 # 1000000000000)) by nra.
  repeat split; lra.
Qed.

Lemma clamp_is_clamp_0_100 (x : number) :
  Math_max 0 (Math_min 100 x) == clamp_0_100 x.
Proof.
  unfold clamp_0_100.
  destruct (Q.min_spec 100 x) as [[M1 M2] | [M1 M2]];
    destruct (Q.max_spec 0 (Qmin 100 x)) as [[N1 N2] | [N1 N2]];
    rewrite N2; rewrite M2 in *;
    (destruct (Math_min_spec 100 x) as [[H1 ->] | [H1 ->]];
      [destruct (Math_max_spec 0 100) as [[H2 ->] | [H2 ->]]
      | destruct (Math_max_spec 0 x) as [[H2 ->] | [H2 ->]]]); lra.
Qed.

Lemma clamp_0_100_range (x : Q) : 0 <= clamp_0_100 x <= 100.
Proof. rewrite <- clamp_is_clamp_0_100. apply clamp_range. Qed.

Lemma sub_100_error (c : number) :
  0 <= c <= 100 ->
  (100 - c) - (1 # 1000000000000) <= (100 - c)%js <= (100 - c) + (1 # 1000000000000)
  /\ 0 <= (100 - c)%js.
Proof.
  intros [L U]. unfold sub.
  assert (R : 0 <= 100 - c <= 4000) by lra.
  split; [apply binary64_error_small; exact R | apply binary64_nonneg; lra].
Qed.

(** Both blends, as the code evaluates them, are within 10^-11 of their
    exact value. *)
Lemma vibe_blend_error (c l : number) :
  0 <= c <= 100 -> 0 <= l <= 100 ->
  (7 # 10) * (100 - c) + (3 # 10) * l - (1 # 100000000000)
    <= (lit_0_7 * (100 - c) + lit_0_3 * l)%js
    <= (7 # 10) * (100 - c) + (3 # 10) * l + (1 # 100000000000).
Proof.
  intros Hc Hl.
  destruct (sub_100_error c Hc) as [[S1 S2] S3].
  destruct lit_0_7_range as [A0 A1]. destruct lit_0_3_range as [B0 B1].
  pose proof lit_0_7_error as A2. pose proof lit_0_3_error as B2.
  assert (P : (7 # 10) * (100 - c) - (1 # 1000000000000) - (2 # 1000000000000)
              <= (lit_0_7 * (100 - c)%js)%js /\
              (lit_0_7 * (100 - c)%js)%js
              <= (7 # 10) * (100 - c) + (1 # 1000000000000) + (2 # 1000000000000) /\
              0 <= (lit_0_7 * (100 - c)%js)%js).
  { apply mul_error; try lra. }
  assert (Q : (3 # 10) * l - 0 - (2 # 1000000000000) <= (lit_0_3 * l)%js /\
              (lit_0_3 * l)%js <= (3 # 10) * l + 0 + (2 # 1000000000000) /\
              0 <= (lit_0_3 * l)%js).
  { apply mul_error; try lra. }
  destruct P as (P1 & P2 & P3). destruct Q as (Q1 & Q2 & Q3).
  unfold add.
  generalize dependent (lit_0_7 * (100 - c)%js)%js. intros p P1 P2 P3.
  generalize dependent (lit_0_3 * l)%js. intros q Q1 Q2 Q3.
  assert (R : 0 <= p + q <= 4000) by lra.
  pose proof (binary64_error_small _ R) as [L U]. lra.
Qed.

Lemma warmth_blend_error (c l : number) :
  0 <= c <= 100 -> 0 <= l <= 100 ->
  (7 # 10) * l + (3 # 10) * (100 - c) - (1 # 100000000000)
    <= (lit_0_7 * l + lit_0_3 * (100 - c))%js
    <= (7 # 10) * l + (3 # 10) * (100 - c) + (1 # 100000000000).
Proof.
  intros Hc Hl.
  destruct (sub_100_error c Hc) as [[S1 S2] S3].
  destruct lit_0_7_range as [A0 A1]. destruct lit_0_3_range as [B0 B1].
  pose proof lit_0_7_error as A2. pose proof lit_0_3_error as B2.
  assert (P : (3 # 10) * (100 - c) - (1 # 1000000000000) - (2 # 1000000000000)
              <= (lit_0_3 * (100 - c)%js)%js /\
              (lit_0_3 * (100 - c)%js)%js
              <= (3 # 10) * (100 - c) + (1 # 1000000000000) + (2 # 1000000000000) /\
              0 <= (lit_0_3 * (100 - c)%js)%js).
  { apply mul_error; try lra. }
  assert (Q : (7 # 10) * l - 0 - (2 # 1000000000000) <= (lit_0_7 * l)%js /\
              (lit_0_7 * l)%js <= (7 # 10) * l + 0 + (2 # 1000000000000) /\
              0 <= (lit_0_7 * l)%js).
  { apply mul_error; try lra. }
  destruct P as (P1 & P2 & P3). destruct Q as (Q1 & Q2 & Q3).
  unfold add.
  generalize dependent (lit_0_3 * (100 - c)%js)%js. intros p P1 P2 P3.
  generalize dependent (lit_0_7 * l)%js. intros q Q1 Q2 Q3.
  assert (R : 0 <= q + p <= 4000) by lra.
  pose proof (binary64_error_small _ R) as [L U]. lra.
Qed.

Lemma Qfloor_lower (y : Q) (n : Z) : inject_Z n <= y -> (n <= Qfloor y)%Z.
Proof. intros H. rewrite <- (Qfloor_Z n). now apply Qfloor_resp_le. Qed.

Lemma Qfloor_upper (y : Q) (n : Z) : y < inject_Z n + 1 -> (Qfloor y <= n)%Z.
Proof.
  intros H. assert (L : (Qfloor y < n + 1)%Z).
  { rewrite Zlt_Qlt, inject_Z_plus. change (inject_Z 1) with 1.
    apply Qle_lt_trans with y; [apply Qfloor_le | exact H]. }
  lia.
Qed.

(** Rounding a value that is within 10^-11 of [x]. *)
Lemma Math_round_near (f x : Q) :
  x - (1 # 100000000000) <= f <= x + (1 # 100000000000) ->
  exists v : Z,
    Math_round f = inject_Z v /\
    (round_half_up x - 1 <= v <= round_half_up x + 1)%Z /\
    (clear_of_tie x -> v = round_half_up x).
Proof.
  intros [L U]. exists (Qfloor (f + (1 # 2))). split; [reflexivity | ].
  unfold clear_of_tie, round_half_up.
  pose proof (Qfloor_le (x + (1 # 2))) as F1.
  pose proof (Qlt_floor (x + (1 # 2))) as F2.
  rewrite inject_Z_plus in F2. change (inject_Z 1) with 1 in F2.
  set (n := Qfloor (x + (1 # 2))) in *.
  split; [split | ].
  - apply Qfloor_lower. replace (n - 1)%Z with (n + -1)%Z by lia.
    rewrite inject_Z_plus. change (inject_Z (-1)) with (-1). lra.
  - apply Qfloor_upper. rewrite inject_Z_plus. change (inject_Z 1) with 1. lra.
  - intros [T1 T2]. apply Z.le_antisymm.
    + apply Qfloor_upper. lra.
    + apply Qfloor_lower. lra.
Qed.

(** What the double arithmetic can cost.  On all inputs [vibeScore] and
    [socialWarmthProxy] are at most 1 away from round-half-up of the exact
    blend of the clamped inputs, and they are equal to it whenever the exact
    blend is not within 10^-9 of a tie n + 1/2. *)
Theorem scores_near_exact (csi lighting : number) :
  (exists v : Z,
      vibeScore csi lighting = inject_Z v /\
      (vibe_exact csi lighting - 1 <= v <= vibe_exact csi lighting + 1)%Z /\
      (clear_of_tie ((7 # 10) * (100 - clamp_0_100 csi) + (3 # 10) * clamp_0_100 lighting) ->
       v = vibe_exact csi lighting)) /\
  (exists w : Z,
      socialWarmthProxy csi lighting = inject_Z w /\
      (warmth_exact csi lighting - 1 <= w <= warmth_exact csi lighting + 1)%Z /\
      (clear_of_tie ((7 # 10) * clamp_0_100 lighting + (3 # 10) * (100 - clamp_0_100 csi)) ->
       w = warmth_exact csi lighting)).
Proof.
  pose proof (clamp_range csi) as Hc. pose proof (clamp_range lighting) as Hl.
  pose proof (clamp_is_clamp_0_100 csi) as Ec.
  pose proof (clamp_is_clamp_0_100 lighting) as El.
  unfold vibeScore, socialWarmthProxy, vibe_exact, warmth_exact.
  cbv zeta.
  generalize dependent (Math_max 0 (Math_min 100 csi)). intros c Hc Ec.
  generalize dependent (Math_max 0 (Math_min 100 lighting)). intros l Hl El.
  split; apply Math_round_near.
  - pose proof (vibe_blend_error c l Hc Hl) as [L U]. rewrite <- Ec, <- El. lra.
  - pose proof (warmth_blend_error c l Hc Hl) as [L U]. rewrite <- Ec, <- El. lra.
Qed.
